(** * Local storage backend of clickhouse-backup (pkg/storage/local.go)

    A shallow embedding of the LOCAL remote-storage backend: the Go
    standard-library path functions it relies on ([filepath.Clean],
    [filepath.Join]/[path.Join], [filepath.Dir], [filepath.Base],
    [filepath.Rel], [strings.HasPrefix]), a tree-shaped model of the file
    system reached through [os], and the backend operations written as
    state-passing functions over that file system. *)

From Stdlib Require Import String Ascii List Bool ZArith Lia.
From Stdlib Require Import Init.Byte.
Import ListNotations.

Set Warnings "-register-all".

Local Open Scope list_scope.
Local Open Scope string_scope.

(** ** Go's [path] / [path/filepath] on a Unix host *)

Module GoPath.

Definition slash : ascii := "/"%char.

(** [strings.Split(s, "/")]: the pieces between separators, empty pieces
    included ([split_sep "" = [""]], [split_sep "/a" = [""; "a"]]). *)
Fixpoint split_sep (s : string) : list string :=
  match s with
  | EmptyString => [EmptyString]
  | String c s' =>
      let r := split_sep s' in
      if Ascii.eqb c slash then EmptyString :: r
      else match r with
           | h :: t => String c h :: t
           | [] => [String c EmptyString]
           end
  end.

Definition is_rooted (s : string) : bool :=
  match s with
  | String c _ => Ascii.eqb c slash
  | EmptyString => false
  end.

(** One element of the loop of [filepath.Clean]: the kept elements are held
    as a stack, most recent first.  Empty and "." elements are dropped; ".."
    removes the last kept element when that one is not itself "..";
    otherwise it is dropped at the root of a rooted path and kept in a
    relative one. *)
Definition clean_step (rooted : bool) (st : list string) (seg : string)
  : list string :=
  if (seg =? "") || (seg =? ".") then st
  else if seg =? ".." then
    match st with
    | top :: rest => if top =? ".." then ".." :: st else rest
    | [] => if rooted then [] else [".."]
    end
  else seg :: st.

Definition clean_stack (p : string) : list string :=
  fold_left (clean_step (is_rooted p)) (split_sep p) [].

Definition render (rooted : bool) (st : list string) : string :=
  if rooted then "/" ++ String.concat "/" (rev st)
  else match st with
       | [] => "."
       | _ => String.concat "/" (rev st)
       end.

(** [filepath.Clean] ([Clean("") = "."] falls out of the empty stack). *)
Definition Clean (p : string) : string :=
  render (is_rooted p) (clean_stack p).

(** [filepath.Join] (and [path.Join], which agrees with it on Unix): the
    elements from the first non-empty one on, joined by "/", then cleaned;
    "" when every element is empty. *)
Fixpoint Join (elems : list string) : string :=
  match elems with
  | [] => ""
  | e :: rest =>
      if e =? "" then Join rest else Clean (String.concat "/" (e :: rest))
  end.

(** [filepath.Dir]: everything up to the last separator, cleaned. *)
Definition Dir (p : string) : string :=
  let segs := split_sep p in
  Clean (match segs with
         | [_] => ""
         | _ => String.concat "/" (removelast segs) ++ "/"
         end).

(** [filepath.Base]: the last element after trailing separators are
    stripped; "." for "" and "/" for a path of separators only. *)
Fixpoint drop_empty (l : list string) : list string :=
  match l with
  | "" :: l' => drop_empty l'
  | _ => l
  end.

Definition Base (p : string) : string :=
  if p =? "" then "."
  else match drop_empty (rev (split_sep p)) with
       | [] => "/"
       | x :: _ => x
       end.

(** [strings.HasPrefix]. *)
Definition HasPrefix (s pre : string) : bool := String.prefix pre s.

(** [filepath.Rel] on clean operands, element by element as the Go loop
    compares them: drop the common leading elements, refuse when the first
    remaining base element is "..", climb one ".." per remaining base
    element, then descend along the remaining target elements. *)
Fixpoint drop_common (bs ts : list string) : list string * list string :=
  match bs, ts with
  | b :: bs', t :: ts' => if b =? t then drop_common bs' ts' else (bs, ts)
  | _, _ => (bs, ts)
  end.

Definition Rel (basepath targpath : string) : option string :=
  let base := Clean basepath in
  let targ := Clean targpath in
  if base =? targ then Some "."
  else
    let base := if base =? "." then "" else base in
    if negb (Bool.eqb (is_rooted base) (is_rooted targ)) then None
    else
      let '(bs, ts) := drop_common (split_sep base) (split_sep targ) in
      if hd "" bs =? ".." then None
      else
        let rb := String.concat "/" bs in
        let rt := String.concat "/" ts in
        if rb =? "" then Some rt
        else Some (String.concat "/" (repeat ".." (length bs))
                   ++ (if rt =? "" then "" else "/" ++ rt)).

End GoPath.

Import GoPath.

(** ** Errors *)

Inductive Errno :=
  ENOENT | EEXIST | ENOTDIR | EISDIR | EINVAL | ENOTEMPTY | EBUSY | EPERM
| EACCES | EXDEV | EIO | ENOSPC.

Inductive Error :=
| ErrPathEscape (key base : string)   (* containedPath: "path %q escapes base %q" *)
| ErrNotFound                         (* storage.ErrNotFound *)
| ErrPath (op path : string) (errno : Errno)   (* *os.PathError, *os.LinkError *)
| ErrWrap (msg : string) (inner : Error)       (* fmt.Errorf("...: %v", err) *)
| ErrCaller (msg : string)            (* an error made by a caller's reader or visitor *)
| ErrRel (basepath targpath : string) (* filepath.Rel: "can't make ... relative to ..." *)
| ErrCtx                              (* ctx.Err() once the context is done *)
| ErrBatchDelete (deleted failed : nat) (failures : list (string * Error))
    (* *BatchDeleteError: the counts of its Message, and its Failures
       (KeyError{Key, Err}) in order *)
| ErrMsg (msg : string).              (* fmt.Errorf with no wrapped error *)

(** [os.IsNotExist]. *)
Definition is_not_exist (e : Error) : bool :=
  match e with
  | ErrPath _ _ ENOENT => true
  | _ => false
  end.

Inductive result (A : Type) :=
| Ok (a : A)
| Err (e : Error).
Arguments Ok {A} a.
Arguments Err {A} e.

(** ** The file system *)

(** A directory tree: a regular file holds its bytes, a directory its
    entries by name.  There are no symbolic links: path resolution is
    lexical. *)
Inductive Node :=
| NFile (data : list byte)
| NDir (entries : list (string * Node)).

(** Operations at which the host may fail on its own (permission denied,
    disk full, cross-device link, I/O error, ...). *)
Inductive Op :=
  OpStat | OpMkdir | OpCreate | OpWrite | OpOpen | OpRead | OpRemove
| OpRemoveAll | OpLink | OpReadDir.

(** The world the backend runs in: the tree below "/", the working
    directory (as the names leading to it from "/"), the host's own
    failures, given per operation and resolved path, and [w_log], memory of
    the caller that the visitors of [Walk] may write to (not part of the
    file system). *)
Record World := mkWorld {
  w_root : Node;
  w_cwd : list string;
  w_fault : Op -> list string -> option Errno;
  w_log : list (Z * string)
}.

Definition with_root (w : World) (r : Node) : World :=
  mkWorld r (w_cwd w) (w_fault w) (w_log w).

Fixpoint assoc (x : string) (l : list (string * Node)) : option Node :=
  match l with
  | [] => None
  | (y, n) :: l' => if y =? x then Some n else assoc x l'
  end.

(** Replace the entry named [x] (or add it at the end), or remove
    ([None]) the entries named [x]. *)
Fixpoint assoc_set (x : string) (v : option Node) (l : list (string * Node))
  : list (string * Node) :=
  match l with
  | [] => match v with Some n => [(x, n)] | None => [] end
  | (y, n) :: l' =>
      if y =? x then match v with Some n' => (y, n') :: l' | None => assoc_set x v l' end
      else (y, n) :: assoc_set x v l'
  end.

(** Resolution of a list of names from a node: the node reached, or the
    errno of the failed lookup. *)
Fixpoint find (n : Node) (p : list string) : Errno + Node :=
  match p with
  | [] => inr n
  | x :: p' =>
      match n with
      | NFile _ => inl ENOTDIR
      | NDir ents =>
          match assoc x ents with
          | Some c => find c p'
          | None => inl ENOENT
          end
      end
  end.

(** Set or remove the entry at [p]; nothing changes when the parent of [p]
    is not a directory. *)
Fixpoint update (n : Node) (p : list string) (v : option Node) : Node :=
  match p with
  | [] => n
  | [x] =>
      match n with
      | NDir ents => NDir (assoc_set x v ents)
      | NFile d => NFile d
      end
  | x :: p' =>
      match n with
      | NDir ents =>
          match assoc x ents with
          | Some c => NDir (assoc_set x (Some (update c p' v)) ents)
          | None => n
          end
      | NFile d => NFile d
      end
  end.

(** The names from "/" that a path string designates: its cleaned elements,
    taken from "/" or from the working directory, a leading ".." climbing
    one level. *)
Definition abs_comps (w : World) (p : string) : list string :=
  fold_left (fun acc s => if s =? ".." then removelast acc else (acc ++ [s])%list)
    (rev (clean_stack p)) (if is_rooted p then [] else w_cwd w).

Definition os_find (w : World) (p : string) : Errno + Node :=
  if p =? "" then inl ENOENT else find (w_root w) (abs_comps w p).

Definition fault (w : World) (o : Op) (p : string) : option Errno :=
  w_fault w o (abs_comps w p).

Definition set_node (w : World) (p : string) (v : option Node) : World :=
  with_root w (update (w_root w) (abs_comps w p) v).

(** ** A state and error monad over the world *)

Definition M (A : Type) : Type := World -> World * result A.

Definition ret {A} (a : A) : M A := fun w => (w, Ok a).
Definition fail {A} (e : Error) : M A := fun w => (w, Err e).
Definition bind {A B} (m : M A) (k : A -> M B) : M B :=
  fun w => match m w with
           | (w', Ok a) => k a w'
           | (w', Err e) => (w', Err e)
           end.

Notation "x <- m ;; k" := (bind m (fun x => k))
  (at level 61, m at next level, right associativity).
Notation "m ;;; k" := (bind m (fun _ => k))
  (at level 61, right associativity).

(** [if err != nil { return <wrap err> }] *)
Definition wrap_err {A} (f : Error -> Error) (m : M A) : M A :=
  fun w => match m w with
           | (w', Err e) => (w', Err (f e))
           | r => r
           end.

(** ** The [os] functions the backend calls *)

Record FileInfo := mkFileInfo { fi_size : Z; fi_isdir : bool }.

Definition info_of (n : Node) : FileInfo :=
  match n with
  | NFile d => mkFileInfo (Z.of_nat (length d)) false
  | NDir _ => mkFileInfo 4096 true
  end.

(** [os.Stat] and [os.Lstat] (the same without symbolic links). *)
Definition os_Stat (p : string) : M FileInfo := fun w =>
  match fault w OpStat p with
  | Some e => (w, Err (ErrPath "stat" p e))
  | None =>
      match os_find w p with
      | inl e => (w, Err (ErrPath "stat" p e))
      | inr n => (w, Ok (info_of n))
      end
  end.

(** [os.Lstat], used by [filepath.Walk] and by [DirEntry.Info]: the same
    lookup (there are no symbolic links), its errors labelled "lstat". *)
Definition os_Lstat (p : string) : M FileInfo := fun w =>
  match fault w OpStat p with
  | Some e => (w, Err (ErrPath "lstat" p e))
  | None =>
      match os_find w p with
      | inl e => (w, Err (ErrPath "lstat" p e))
      | inr n => (w, Ok (info_of n))
      end
  end.

(** [os.MkdirAll]: existing directories on the way are kept, a regular file
    on the way fails with ENOTDIR, a missing directory is made by [os.Mkdir],
    which may fail; directories made before a failure stay. *)
Fixpoint mkdirs (w : World) (pre : list string) (n : Node) (rest : list string)
  : Node * option Error :=
  match rest with
  | [] => (n, None)
  | x :: rest' =>
      match n with
      | NFile _ => (n, Some (ErrPath "mkdir" "" ENOTDIR))
      | NDir ents =>
          let here := (pre ++ [x])%list in
          match assoc x ents with
          | Some (NFile _) => (n, Some (ErrPath "mkdir" "" ENOTDIR))
          | Some c =>
              let '(c', r) := mkdirs w here c rest' in
              (NDir (assoc_set x (Some c') ents), r)
          | None =>
              match w_fault w OpMkdir here with
              | Some e => (n, Some (ErrPath "mkdir" "" e))
              | None =>
                  let '(c', r) := mkdirs w here (NDir []) rest' in
                  (NDir (assoc_set x (Some c') ents), r)
              end
          end
      end
  end.

Definition os_MkdirAll (p : string) : M unit := fun w =>
  let '(r', e) := mkdirs w [] (w_root w) (abs_comps w p) in
  (with_root w r', match e with None => Ok tt | Some e => Err e end).

(** [os.Create]: create or truncate a regular file. *)
Definition os_Create (p : string) : M unit := fun w =>
  let c := abs_comps w p in
  if p =? "" then (w, Err (ErrPath "open" p ENOENT)) else
  match fault w OpCreate p with
  | Some e => (w, Err (ErrPath "open" p e))
  | None =>
      match c with
      | [] => (w, Err (ErrPath "open" p EISDIR))
      | _ =>
          match find (w_root w) (removelast c) with
          | inl e => (w, Err (ErrPath "open" p e))
          | inr (NFile _) => (w, Err (ErrPath "open" p ENOTDIR))
          | inr (NDir _) =>
              match find (w_root w) c with
              | inr (NDir _) => (w, Err (ErrPath "open" p EISDIR))
              | _ => (set_node w p (Some (NFile [])), Ok tt)
              end
          end
      end
  end.

(** [os.Remove]: unlink a file or an empty directory. *)
Definition os_Remove (p : string) : M unit := fun w =>
  match fault w OpRemove p with
  | Some e => (w, Err (ErrPath "remove" p e))
  | None =>
      match os_find w p with
      | inl e => (w, Err (ErrPath "remove" p e))
      | inr (NDir (_ :: _)) => (w, Err (ErrPath "remove" p ENOTEMPTY))
      | inr _ =>
          match abs_comps w p with
          | [] => (w, Err (ErrPath "remove" p EBUSY))
          | _ => (set_node w p None, Ok tt)
          end
      end
  end.

(** [os.RemoveAll]: "" and a missing path are fine; a path ending in "."
    is refused with EINVAL. *)
Definition endsWithDot (p : string) : bool :=
  (p =? ".") ||
  match rev (split_sep p) with
  | "." :: _ :: _ => true
  | _ => false
  end.

Definition os_RemoveAll (p : string) : M unit := fun w =>
  if p =? "" then (w, Ok tt)
  else if endsWithDot p then (w, Err (ErrPath "RemoveAll" p EINVAL))
  else match fault w OpRemoveAll p with
       | Some e => (w, Err (ErrPath "unlinkat" p e))
       | None =>
           match os_find w p with
           | inl ENOENT => (w, Ok tt)
           | inl e => (w, Err (ErrPath "unlinkat" p e))
           | inr _ =>
               match abs_comps w p with
               | [] => (w, Err (ErrPath "unlinkat" p EBUSY))
               | _ => (set_node w p None, Ok tt)
               end
           end
       end.

(** [os.Link]: a new name for an existing regular file; fails when the
    destination exists, the source is missing or a directory, or the host
    refuses (EXDEV across file systems, EPERM, ...). *)
Definition os_Link (src dst : string) : M unit := fun w =>
  if dst =? "" then (w, Err (ErrPath "link" dst ENOENT)) else
  match fault w OpLink dst with
  | Some e => (w, Err (ErrPath "link" dst e))
  | None =>
      match os_find w src with
      | inl e => (w, Err (ErrPath "link" src e))
      | inr (NDir _) => (w, Err (ErrPath "link" src EPERM))
      | inr (NFile d) =>
          match os_find w dst with
          | inr _ => (w, Err (ErrPath "link" dst EEXIST))
          | inl _ =>
              match find (w_root w) (removelast (abs_comps w dst)) with
              | inr (NDir _) => (set_node w dst (Some (NFile d)), Ok tt)
              | inr (NFile _) => (w, Err (ErrPath "link" dst ENOTDIR))
              | inl e => (w, Err (ErrPath "link" dst e))
              end
          end
      end
  end.

(** An open file ([*os.File]) is named by the path it was opened at and
    reads what is stored there when it is read. *)
Record Handle := mkHandle { h_path : string }.

(** [os.Open]. *)
Definition os_Open (p : string) : M Handle := fun w =>
  match fault w OpOpen p with
  | Some e => (w, Err (ErrPath "open" p e))
  | None =>
      match os_find w p with
      | inl e => (w, Err (ErrPath "open" p e))
      | inr _ => (w, Ok (mkHandle p))
      end
  end.

(** An [io.Reader]: the bytes it delivers, then [None] for io.EOF or the
    error it fails with; or an open file. *)
Inductive Reader :=
| RBytes (data : list byte) (err : option Error)
| RFile (h : Handle).

Definition read_all (w : World) (r : Reader) : list byte * option Error :=
  match r with
  | RBytes d e => (d, e)
  | RFile h =>
      let p := h_path h in
      match fault w OpRead p with
      | Some e => ([], Some (ErrPath "read" p e))
      | None =>
          match os_find w p with
          | inr (NFile d) => (d, None)
          | inr (NDir _) => ([], Some (ErrPath "read" p EISDIR))
          | inl e => ([], Some (ErrPath "read" p e))
          end
      end
  end.

(** [io.Copy(dst, r)] into the regular file at [dst]: the bytes read are
    appended to it; a failed write or the reader's error ends the copy. *)
Definition io_Copy (dst : string) (r : Reader) : M Z := fun w =>
  let '(d, er) := read_all w r in
  let wrote :=
    match d with
    | [] => Ok w
    | _ =>
        match fault w OpWrite dst with
        | Some e => Err (ErrPath "write" dst e)
        | None =>
            match os_find w dst with
            | inr (NFile old) => Ok (set_node w dst (Some (NFile (old ++ d)%list)))
            | _ => Err (ErrPath "write" dst EIO)
            end
        end
    end in
  match wrote with
  | Err e => (w, Err e)
  | Ok w' =>
      match er with
      | Some e => (w', Err e)
      | None => (w', Ok (Z.of_nat (length d)))
      end
  end.

(** Names in the order [os.ReadDir] and [filepath.Walk] return them. *)
Fixpoint insert_name (x : string * Node) (l : list (string * Node))
  : list (string * Node) :=
  match l with
  | [] => [x]
  | y :: l' => if String.leb (fst x) (fst y) then x :: l else y :: insert_name x l'
  end.

Definition sort_names (l : list (string * Node)) : list (string * Node) :=
  fold_right insert_name [] l.

(** [os.ReadDir] (and the names read by [filepath.Walk]): the path is
    opened as a directory (O_DIRECTORY), so a regular file fails at the
    open with ENOTDIR. *)
Definition os_ReadDir (p : string) : M (list (string * Node)) := fun w =>
  match fault w OpReadDir p with
  | Some e => (w, Err (ErrPath "open" p e))
  | None =>
      match os_find w p with
      | inl e => (w, Err (ErrPath "open" p e))
      | inr (NFile _) => (w, Err (ErrPath "open" p ENOTDIR))
      | inr (NDir ents) => (w, Ok (sort_names ents))
      end
  end.

(** ** The backend: pkg/storage/local.go *)

(** [config.LocalConfig]: [path], [object_disk_path], [debug]. *)
Record LocalConfig := mkConfig {
  Path : string;
  ObjectDiskPath : string;
  Debug : bool
}.

(** [localFile] (its [lastModified] time is not modelled). *)
Record localFile := mkLocalFile { lf_size : Z; lf_name : string }.

Definition lift {A} (r : result A) : M A := fun w => (w, r).

(** [containedPath] *)
Definition containedPath (basePath key : string) : result string :=
  let joined := Clean (Join [basePath; key]) in
  let base := Clean basePath in
  if negb (HasPrefix joined (base ++ "/")) && negb (joined =? base)
  then Err (ErrPathEscape key basePath)
  else Ok joined.

(** [StatFileAbsolute] *)
Definition StatFileAbsolute (key : string) : M localFile := fun w =>
  match os_Stat key w with
  | (w', Err e) => if is_not_exist e then (w', Err ErrNotFound) else (w', Err e)
  | (w', Ok stat) => (w', Ok (mkLocalFile (fi_size stat) (Base key)))
  end.

(** [StatFile] *)
Definition StatFile (l : LocalConfig) (key : string) : M localFile :=
  absPath <- lift (containedPath (Path l) key) ;;
  StatFileAbsolute absPath.

(** [DeleteFile] *)
Definition DeleteFile (l : LocalConfig) (key : string) : M unit :=
  absPath <- lift (containedPath (Path l) key) ;;
  os_RemoveAll absPath.

(** [DeleteFileFromObjectDiskBackup] *)
Definition DeleteFileFromObjectDiskBackup (l : LocalConfig) (key : string) : M unit :=
  absPath <- lift (containedPath (ObjectDiskPath l) key) ;;
  os_RemoveAll absPath.

(** The visitor [process] of [Walk]. *)
Definition Visitor := localFile -> M unit.

(** A [filepath.WalkFunc]: path, [os.FileInfo] (nil on error), error. *)
Definition WalkFunc := string -> option FileInfo -> option Error -> M unit.

Fixpoint height (n : Node) : nat :=
  match n with
  | NFile _ => 0
  | NDir ents =>
      S ((fix hs (l : list (string * Node)) : nat :=
            match l with
            | [] => 0
            | (_, c) :: l' => Nat.max (height c) (hs l')
            end) ents)
  end.

(** The loop of [filepath.walk] over the names of a directory: each entry
    is lstat-ed and walked; an error returned by the function ends it. *)
Fixpoint walk_names (walk : string -> FileInfo -> M unit) (fn : WalkFunc)
  (path : string) (names : list string) : M unit :=
  match names with
  | [] => ret tt
  | name :: rest =>
      let filename := Join [path; name] in
      fun w =>
        match os_Lstat filename w with
        | (w', Err e) => (fn filename None (Some e) ;;; walk_names walk fn path rest) w'
        | (w', Ok fileInfo) => (walk filename fileInfo ;;; walk_names walk fn path rest) w'
        end
  end.

(** [filepath.walk]: the function sees a directory before its entries, the
    entries in name order.  [fuel] bounds the depth (see [filepath_Walk]). *)
Fixpoint fp_walk (fuel : nat) (fn : WalkFunc) (path : string) (info : FileInfo)
  : M unit :=
  match fuel with
  | O => ret tt
  | S fuel' =>
      if negb (fi_isdir info) then fn path (Some info) None
      else fun w =>
        match os_ReadDir path w with
        | (w1, Err e) => fn path (Some info) (Some e) w1
        | (w1, Ok ents) =>
            match fn path (Some info) None w1 with
            | (w2, Err e) => (w2, Err e)
            | (w2, Ok _) => walk_names (fp_walk fuel' fn) fn path (map fst ents) w2
            end
        end
  end.

(** [filepath.Walk]: the fuel is one more than the height of the tree when
    the walk starts, which bounds the depth of any directory met. *)
Definition filepath_Walk (root : string) (fn : WalkFunc) : M unit := fun w =>
  let fuel := S (height (w_root w)) in
  match os_Lstat root w with
  | (w', Err e) => fn root None (Some e) w'
  | (w', Ok info) => fp_walk fuel fn root info w'
  end.

(** The closure [WalkAbsolute] hands to [filepath.Walk]. *)
Definition walk_callback (prefix : string) (process : Visitor) : WalkFunc :=
  fun fPath info err =>
    match err with
    | Some e => if is_not_exist e then ret tt else fail e
    | None =>
        match Rel prefix fPath with
        | None => fail (ErrRel prefix fPath)
        | Some relName =>
            if relName =? "." then ret tt
            else match info with
                 | Some i => process (mkLocalFile (fi_size i) relName)
                 | None => ret tt
                 end
        end
    end.

Fixpoint walk_entries (prefix : string) (process : Visitor)
  (entries : list (string * Node)) : M unit :=
  match entries with
  | [] => ret tt
  | (name, _) :: rest =>
      info <- os_Lstat (Join [prefix; name]) ;;
      process (mkLocalFile (fi_size info) name) ;;;
      walk_entries prefix process rest
  end.

(** [WalkAbsolute] *)
Definition WalkAbsolute (prefix : string) (recursive : bool) (process : Visitor)
  : M unit :=
  if recursive then filepath_Walk prefix (walk_callback prefix process)
  else fun w =>
    match os_ReadDir prefix w with
    | (w', Err e) => if is_not_exist e then (w', Ok tt) else (w', Err e)
    | (w', Ok entries) => walk_entries prefix process entries w'
    end.

(** [Walk] *)
Definition Walk (l : LocalConfig) (remotePath : string) (recursive : bool)
  (process : Visitor) : M unit :=
  let prefix := Join [Path l; remotePath] in
  WalkAbsolute prefix recursive process.

(** [GetFileReaderAbsolute] *)
Definition GetFileReaderAbsolute (key : string) : M Handle := os_Open key.

(** [GetFileReader] *)
Definition GetFileReader (l : LocalConfig) (key : string) : M Handle :=
  absPath <- lift (containedPath (Path l) key) ;;
  GetFileReaderAbsolute absPath.

(** [PutFileAbsolute]; a failed clean-up [os.Remove] is only logged. *)
Definition PutFileAbsolute (key : string) (r : Reader) (localSize : Z) : M unit :=
  let dir := Dir key in
  wrap_err (ErrWrap ("can't create directory " ++ dir)) (os_MkdirAll dir) ;;;
  os_Create key ;;;
  fun w =>
    match io_Copy key r w with
    | (w', Err e) => (fst (os_Remove key w'), Err e)
    | (w', Ok _) => (w', Ok tt)
    end.

(** [PutFile] *)
Definition PutFile (l : LocalConfig) (key : string) (r : Reader) (localSize : Z)
  : M unit :=
  absPath <- lift (containedPath (Path l) key) ;;
  PutFileAbsolute absPath r localSize.

(** [CopyObject] *)
Definition CopyObject (l : LocalConfig) (srcSize : Z) (srcBucket srcKey dstKey : string)
  : M Z :=
  let dstKey := Join [ObjectDiskPath l; dstKey] in
  let srcPath := Join [Path l; srcKey] in
  let dstPath := dstKey in
  let dstDir := Dir dstPath in
  wrap_err (ErrWrap ("can't create directory " ++ dstDir)) (os_MkdirAll dstDir) ;;;
  fun w =>
    match os_Link srcPath dstPath w with
    | (w', Ok _) => (w', Ok srcSize)
    | (w', Err _) =>
        (src <- os_Open srcPath ;;
         os_Create dstPath ;;;
         io_Copy dstPath (RFile src)) w'
    end.

(** The context of a batch: [ctx i] tells whether [ctx.Done()] is closed
    when the [i]-th key is reached; [ctx.Err()] is then [ErrCtx]. *)
Definition Context := nat -> bool.

(** The loop of [deleteKeysBatchInternal], from the [i]-th key on. *)
Fixpoint delete_loop (ctx : Context) (i : nat) (basePath : string)
  (keys : list string) (failures : list (string * Error)) (deletedCount : nat)
  : M (list (string * Error) * nat) :=
  match keys with
  | [] => ret (failures, deletedCount)
  | key :: rest =>
      if ctx i then fail ErrCtx
      else match containedPath basePath key with
           | Err pathErr =>
               delete_loop ctx (S i) basePath rest
                 (failures ++ [(key, pathErr)])%list deletedCount
           | Ok absPath => fun w =>
               match os_RemoveAll absPath w with
               | (w', Err e) =>
                   delete_loop ctx (S i) basePath rest
                     (failures ++ [(key, e)])%list deletedCount w'
               | (w', Ok _) =>
                   delete_loop ctx (S i) basePath rest failures (S deletedCount) w'
               end
           end
  end.

(** [deleteKeysBatchInternal] *)
Definition deleteKeysBatchInternal (ctx : Context) (basePath : string)
  (keys : list string) : M unit :=
  r <- delete_loop ctx 0 basePath keys [] 0 ;;
  let '(failures, deletedCount) := r in
  if Nat.ltb 0 (length failures)
  then fail (ErrBatchDelete deletedCount (length failures) failures)
  else ret tt.

(** [DeleteKeysBatch] *)
Definition DeleteKeysBatch (l : LocalConfig) (ctx : Context) (keys : list string)
  : M unit :=
  match keys with
  | [] => ret tt
  | _ => deleteKeysBatchInternal ctx (Path l) keys
  end.

(** [DeleteKeysFromObjectDiskBackupBatch] *)
Definition DeleteKeysFromObjectDiskBackupBatch (l : LocalConfig) (ctx : Context)
  (keys : list string) : M unit :=
  match keys with
  | [] => ret tt
  | _ => deleteKeysBatchInternal ctx (ObjectDiskPath l) keys
  end.

(** [Connect]: the [Debug] call only logs. *)
Definition Connect (l : LocalConfig) : M unit :=
  if Path l =? "" then fail (ErrMsg "local->path is required")
  else
    wrap_err (ErrWrap ("can't create local path " ++ Path l)) (os_MkdirAll (Path l)) ;;;
    (if negb (ObjectDiskPath l =? "")
     then wrap_err (ErrWrap ("can't create local object_disk_path " ++ ObjectDiskPath l))
            (os_MkdirAll (ObjectDiskPath l))
     else ret tt) ;;;
    ret tt.

(** [Close] *)
Definition Close : M unit := ret tt.

(** [Kind] *)
Definition Kind : string := "LOCAL".

(** [GetFileReaderWithLocalPath]: [localPath] and [remoteSize] are not
    used. *)
Definition GetFileReaderWithLocalPath (l : LocalConfig) (key localPath : string)
  (remoteSize : Z) : M Handle :=
  GetFileReader l key.

(** ** Callers and worlds used to exercise the backend *)

(** A caller's visitor that records each entry it is handed. *)
Definition collect : Visitor := fun f w =>
  (mkWorld (w_root w) (w_cwd w) (w_fault w) (w_log w ++ [(lf_size f, lf_name f)])%list,
   Ok tt).

(** /data/remote/b1/{meta.json, sub/part} and /etc/passwd, working
    directory /data. *)
Definition demo_tree : Node :=
  NDir [("data", NDir [("remote", NDir [("b1", NDir [
            ("meta.json", NFile [Byte.x61; Byte.x62]);
            ("sub", NDir [("part", NFile [Byte.x63])])])])]);
        ("etc", NDir [("passwd", NFile [Byte.x72])])].

Definition no_fault : Op -> list string -> option Errno := fun _ _ => None.

Definition demo_world : World := mkWorld demo_tree ["data"] no_fault [].

Definition demo_cfg : LocalConfig := mkConfig "/data/remote" "/data/objects" false.

(** ** Reference readings of the specification *)

(** "the cleaned result is a strict descendant of the cleaned base": both
    rooted or both relative, and the elements of the base followed by at
    least one more element, none of them "..". *)
Fixpoint is_prefix_list (l1 l2 : list string) : bool :=
  match l1, l2 with
  | [], _ => true
  | x :: l1', y :: l2' => (x =? y) && is_prefix_list l1' l2'
  | _ :: _, [] => false
  end.

Definition strict_descendant (b t : string) : bool :=
  let sb := rev (clean_stack b) in
  let st := rev (clean_stack t) in
  Bool.eqb (is_rooted b) (is_rooted t) && is_prefix_list sb st
  && Nat.ltb (length sb) (length st)
  && forallb (fun s => negb (s =? "..")) (skipn (length sb) st).

(** The guard as the specification states it: accept exactly when the
    cleaned base/key is the cleaned base or lies strictly below it. *)
Definition spec_contained (basePath key : string) : bool :=
  let t := Clean (Join [basePath; key]) in
  (t =? Clean basePath) || strict_descendant (Clean basePath) t.

(** The batch as the specification describes it: the single-key delete
    against [basePath] is run on every key in input order, a failed key is
    recorded with its error and never stops the batch. *)
Fixpoint delete_each (basePath : string) (keys : list string)
  : M (list (string * Error)) :=
  match keys with
  | [] => ret []
  | key :: rest => fun w =>
      match (absPath <- lift (containedPath basePath key) ;; os_RemoveAll absPath) w with
      | (w', Err e) => (fs <- delete_each basePath rest ;; ret ((key, e) :: fs)) w'
      | (w', Ok _) => delete_each basePath rest w'
      end
  end.

(** A context that is never cancelled, and one cancelled from the start. *)
Definition background : Context := fun _ => false.
Definition cancelled : Context := fun _ => true.

(** Whether a string contains the separator. *)
Fixpoint has_slash (s : string) : bool :=
  match s with
  | EmptyString => false
  | String c s' => Ascii.eqb c slash || has_slash s'
  end.

(** An element [filepath.Clean] can keep: not empty, not ".", no separator. *)
Definition normal_elem (s : string) : Prop :=
  s <> "" /\ s <> "." /\ has_slash s = false.

(** A place where [os.Create] can make a regular file: a non-empty path
    whose parent directory exists. *)
Definition file_slot (w : World) (p : string) : Prop :=
  p <> "" /\ abs_comps w p <> []
  /\ exists ents, find (w_root w) (removelast (abs_comps w p)) = inr (NDir ents).

(** A host where unlinking the file at the names [c] is refused. *)
Definition remove_refused (c : list string) : Op -> list string -> option Errno :=
  fun o q =>
    match o with
    | OpRemove => if list_eq_dec string_dec q c then Some EACCES else None
    | _ => None
    end.

(** A reader that delivers two bytes and then fails. *)
Definition failing_reader : Reader :=
  RBytes [Byte.x61; Byte.x62] (Some (ErrCaller "reader failed")).

(** A name a directory entry can have: not empty, not "." or "..", no
    separator. *)
Definition valid_name (s : string) : bool :=
  negb (s =? "") && negb (s =? ".") && negb (s =? "..") && negb (has_slash s).

Fixpoint nodup_names (l : list string) : bool :=
  match l with
  | [] => true
  | x :: l' => negb (existsb (String.eqb x) l') && nodup_names l'
  end.

(** A well-formed tree: in every directory the names are valid and
    distinct. *)
Fixpoint wf_node (n : Node) : bool :=
  match n with
  | NFile _ => true
  | NDir ents =>
      nodup_names (map fst ents)
      && (fix go (l : list (string * Node)) : bool :=
            match l with
            | [] => true
            | (x, c) :: l' => valid_name x && wf_node c && go l'
            end) ents
  end.

(** Every entry below a node, with its size and its names relative to the
    node, each directory before its contents and siblings in name order. *)
Fixpoint entries_of (fuel : nat) (n : Node) : list (Z * list string) :=
  match fuel, n with
  | S f, NDir ents =>
      flat_map (fun e => (fi_size (info_of (snd e)), [fst e])
                         :: map (fun x => (fst x, fst e :: snd x)) (entries_of f (snd e)))
        (sort_names ents)
  | _, _ => []
  end.

(** The listing of the subtree of a directory: each entry below it, with
    its relative name written with "/". *)
Definition walk_listing (n : Node) : list (Z * string) :=
  map (fun e => (fst e, String.concat "/" (snd e))) (entries_of (height n) n).

(** The world with entries appended to the caller's log. *)
Definition log_app (w : World) (l : list (Z * string)) : World :=
  mkWorld (w_root w) (w_cwd w) (w_fault w) (w_log w ++ l)%list.

(** A path [q] that lies below [p] along the names [rel]. *)
Definition below (p q : string) (rel : list string) : Prop :=
  q <> "" /\ is_rooted q = is_rooted p /\ clean_stack q = (rev rel ++ clean_stack p)%list
  /\ forallb valid_name rel = true.


(** No regular file on the way along [c] from [n]: each name met is a
    directory or missing (from a missing one on, [os.MkdirAll] makes
    fresh directories). *)
Fixpoint no_file_on (n : Node) (c : list string) : bool :=
  match c, n with
  | [], _ => true
  | _ :: _, NFile _ => false
  | x :: c', NDir ents =>
      match assoc x ents with
      | Some (NFile _) => false
      | Some m => no_file_on m c'
      | None => true
      end
  end.


(** * Properties *)

(** ** Sanity checks of the path model *)

Example clean_ex1 : Clean "/data/remote/../../etc" = "/etc". Proof. reflexivity. Qed.
Example clean_ex2 : Clean "a//b/./../../.." = "..". Proof. reflexivity. Qed.
Example clean_ex3 : Clean "" = "." /\ Clean "/.." = "/" /\ Clean "a/" = "a".
Proof. repeat split; reflexivity. Qed.
Example join_ex : Join ["/data"; "/etc"] = "/data/etc" /\ Join [""; "x/"] = "x"
  /\ Join [""; ""] = "".
Proof. repeat split; reflexivity. Qed.
Example dir_ex : Dir "/a/b" = "/a" /\ Dir "/a" = "/" /\ Dir "a" = ".".
Proof. repeat split; reflexivity. Qed.
Example base_ex : Base "/a/b/" = "b" /\ Base "" = "." /\ Base "///" = "/".
Proof. repeat split; reflexivity. Qed.
Example rel_ex : Rel "/a" "/a/b/c" = Some "b/c" /\ Rel "/a/b" "/a" = Some ".."
  /\ Rel "/" "/x" = Some "x" /\ Rel "/a" "/a" = Some "." /\ Rel "a" "/a" = None.
Proof. repeat split; reflexivity. Qed.

(** ** The key-based guard *)

(** Every key-based single-file operation stops at a key [containedPath]
    refuses, with that error and the world untouched. *)
Lemma key_ops_guarded (l : LocalConfig) (key : string) (e : Error) (w : World)
  (r : Reader) (size : Z) :
  containedPath (Path l) key = Err e ->
  StatFile l key w = (w, Err e) /\ GetFileReader l key w = (w, Err e)
  /\ PutFile l key r size w = (w, Err e) /\ DeleteFile l key w = (w, Err e).
Proof.
  intros H. unfold StatFile, GetFileReader, PutFile, DeleteFile, bind, lift.
  rewrite H. repeat split.
Qed.

(** C1 (code_bug): the key-based [Walk] does not go through [containedPath]:
    the key "../../etc", which the guard refuses for /data/remote, is
    enumerated by [Walk] without error, and the visitor is handed
    /etc/passwd. *)
Theorem C1_walk_escapes_base :
  containedPath (Path demo_cfg) "../../etc"
    = Err (ErrPathEscape "../../etc" "/data/remote")
  /\ snd (Walk demo_cfg "../../etc" true collect demo_world) = Ok tt
  /\ w_log (fst (Walk demo_cfg "../../etc" true collect demo_world)) = [(1%Z, "passwd")]
  /\ w_log (fst (Walk demo_cfg "../../etc" false collect demo_world)) = [(1%Z, "passwd")].
Proof. vm_compute. repeat split. Qed.

(** C2 (code_bug): [containedPath] compares against [base ++ "/"], which for
    the base "/" is "//": "/etc", a strict descendant of "/", is refused.
    Conversely for the base "..", the key "../" cleans to "../..", which is
    outside "..", yet has the prefix "../" and is accepted. *)
Theorem C2_guard_root_base :
  Clean (Join ["/"; "etc"]) = "/etc"
  /\ spec_contained "/" "etc" = true
  /\ containedPath "/" "etc" = Err (ErrPathEscape "etc" "/")
  /\ spec_contained ".." "../" = false
  /\ containedPath ".." "../" = Ok "../..".
Proof. vm_compute. repeat split. Qed.

(** ** Batch delete *)

Lemma delete_loop_each (ctx : Context) (basePath : string) (keys : list string) :
  (forall i, ctx i = false) ->
  forall i acc cnt w, exists w' fs d,
    delete_each basePath keys w = (w', Ok fs)
    /\ delete_loop ctx i basePath keys acc cnt w = (w', Ok ((acc ++ fs)%list, d))
    /\ d + length fs = cnt + length keys.
Proof.
  intros Hctx. induction keys as [|key rest IH]; intros i acc cnt w.
  - exists w, [], cnt. simpl. rewrite app_nil_r. auto.
  - simpl. rewrite Hctx. unfold bind at 1, lift.
    destruct (containedPath basePath key) as [absPath|pathErr].
    + destruct (os_RemoveAll absPath w) as [w1 [u|e]] eqn:Hrm.
      * destruct (IH (S i) acc (S cnt) w1) as (w' & fs & d & H1 & H2 & H3).
        exists w', fs, d. rewrite H1, H2. repeat split. lia.
      * destruct (IH (S i) (acc ++ [(key, e)])%list cnt w1) as (w' & fs & d & H1 & H2 & H3).
        exists w', ((key, e) :: fs), d. unfold bind. rewrite H1, H2, <- app_assoc.
        simpl. repeat split. lia.
    + destruct (IH (S i) (acc ++ [(key, pathErr)])%list cnt w) as (w' & fs & d & H1 & H2 & H3).
      exists w', ((key, pathErr) :: fs), d. unfold bind. rewrite H1, H2, <- app_assoc.
      simpl. repeat split. lia.
Qed.

(** C4 (counterexample): with the context cancelled, the batch stops at the
    first key: nothing has failed, yet the result is the cancellation and
    the key is left in place. *)
Lemma C4_cancelled_batch :
  snd (deleteKeysBatchInternal cancelled "/data/remote" ["b1/meta.json"] demo_world)
    = Err ErrCtx
  /\ find (w_root (fst (deleteKeysBatchInternal cancelled "/data/remote"
                          ["b1/meta.json"] demo_world)))
       ["data"; "remote"; "b1"; "meta.json"] = inr (NFile [Byte.x61; Byte.x62]).
Proof. vm_compute. split; reflexivity. Qed.

Lemma delete_loop_cancel (ctx : Context) (b : string) (keys : list string) :
  forall i0 i fs dc w, i < length keys ->
  (forall j, j < i -> ctx (i0 + j) = false) -> ctx (i0 + i) = true ->
  delete_loop ctx i0 b keys fs dc w
  = (fst (delete_loop background i0 b (firstn i keys) fs dc w), Err ErrCtx).
Proof.
  induction keys as [|key rest IH]; intros i0 i fs dc w Hi Hj Hc; [cbn in Hi; lia|].
  destruct i as [|i].
  - rewrite Nat.add_0_r in Hc. cbn [delete_loop firstn]. rewrite Hc. reflexivity.
  - assert (H0 : ctx i0 = false) by (rewrite <- (Nat.add_0_r i0); apply Hj; lia).
    assert (Hi' : i < length rest) by (cbn in Hi; lia).
    assert (Hj' : forall j, j < i -> ctx (S i0 + j) = false)
      by (intros j Hlt; rewrite Nat.add_succ_comm; apply Hj; lia).
    assert (Hc' : ctx (S i0 + i) = true) by (rewrite Nat.add_succ_comm; exact Hc).
    cbn [delete_loop firstn]. rewrite H0. unfold background at 1.
    destruct (containedPath b key) as [p|e].
    + destruct (os_RemoveAll p w) as [w1 [[]|e]]; apply IH; assumption.
    + apply IH; assumption.
Qed.

Lemma batch_cancel (ctx : Context) (b : string) (keys : list string) (i : nat) (w : World) :
  i < length keys -> (forall j, j < i -> ctx j = false) -> ctx i = true ->
  deleteKeysBatchInternal ctx b keys w
  = (fst (deleteKeysBatchInternal background b (firstn i keys) w), Err ErrCtx).
Proof.
  intros Hi Hj Hc. unfold deleteKeysBatchInternal, bind.
  rewrite (delete_loop_cancel ctx b keys 0 i [] 0 w Hi Hj Hc).
  destruct (delete_loop background 0 b (firstn i keys) [] 0 w) as [w1 [[fs d]|e]];
    [cbv beta iota zeta; destruct (Nat.ltb 0 (length fs))|]; reflexivity.
Qed.

(** C4 (amended): while the context is not cancelled, batch delete is the
    single-key delete run on every key in input order, failures (guard or
    [os.RemoveAll]) recorded and skipped; it succeeds exactly when no key
    failed and otherwise reports every failed key with its error, in input
    order.  When the context is first found cancelled as the [i]-th key is
    reached, the batch stops there: the first [i] keys have been handled as
    by an uncancelled batch of those keys, and the cancellation error is
    returned instead of a report. *)
Theorem C4_batch_attempts_every_key (ctx : Context) (basePath : string)
  (keys : list string) (w : World) :
  ((forall i, ctx i = false) ->
   exists w' fs,
     delete_each basePath keys w = (w', Ok fs)
     /\ deleteKeysBatchInternal ctx basePath keys w
        = (w', match fs with
               | [] => Ok tt
               | _ => Err (ErrBatchDelete (length keys - length fs) (length fs) fs)
               end))
  /\ (forall i, i < length keys -> (forall j, j < i -> ctx j = false) -> ctx i = true ->
      deleteKeysBatchInternal ctx basePath keys w
      = (fst (deleteKeysBatchInternal background basePath (firstn i keys) w), Err ErrCtx)).
Proof.
  split; [|intros i Hi Hj Hc; exact (batch_cancel ctx basePath keys i w Hi Hj Hc)].
  intros Hctx.
  destruct (delete_loop_each ctx basePath keys Hctx 0 [] 0 w) as (w' & fs & d & H1 & H2 & H3).
  exists w', fs. split; [exact H1|].
  unfold deleteKeysBatchInternal, bind. rewrite H2.
  destruct fs as [|f fs]; [reflexivity|].
  replace (length keys - length (f :: fs)) with d by (simpl length in H3 |- *; lia).
  reflexivity.
Qed.

Lemma C4_witness :
  (exists w' fs,
    delete_each "/data/remote" ["b1/meta.json"; "../etc"; "b1/sub"] demo_world = (w', Ok fs)
    /\ deleteKeysBatchInternal background "/data/remote"
         ["b1/meta.json"; "../etc"; "b1/sub"] demo_world
       = (w', match fs with
              | [] => Ok tt
              | _ => Err (ErrBatchDelete (length ["b1/meta.json"; "../etc"; "b1/sub"]
                                          - length fs) (length fs) fs)
              end))
  /\ deleteKeysBatchInternal (fun j => Nat.leb 2 j) "/data/remote"
       ["b1/meta.json"; "../etc"; "b1/sub"] demo_world
     = (fst (deleteKeysBatchInternal background "/data/remote"
               ["b1/meta.json"; "../etc"] demo_world), Err ErrCtx).
Proof.
  split.
  - apply (proj1 (C4_batch_attempts_every_key background "/data/remote"
                    ["b1/meta.json"; "../etc"; "b1/sub"] demo_world)).
    intros i. reflexivity.
  - apply (proj2 (C4_batch_attempts_every_key (fun j => Nat.leb 2 j) "/data/remote"
                    ["b1/meta.json"; "../etc"; "b1/sub"] demo_world) 2).
    + cbn. lia.
    + intros j Hj. destruct j as [|[|j]]; [reflexivity | reflexivity | lia].
    + reflexivity.
Defined.

(** The example of the specification: of the keys A, B, C where B escapes
    the base, A and C are deleted and only B is reported. *)
Example batch_delete_abc :
  let r := deleteKeysBatchInternal background "/data/remote"
             ["b1/meta.json"; "../etc"; "b1/sub"] demo_world in
  snd r = Err (ErrBatchDelete 2 1 [("../etc", ErrPathEscape "../etc" "/data/remote")])
  /\ find (w_root (fst r)) ["data"; "remote"; "b1"] = inr (NDir []).
Proof. vm_compute. split; reflexivity. Qed.

(** ** Facts about the path functions *)

Lemma append_empty_r (s : string) : s ++ "" = s.
Proof. induction s as [|c s IH]; simpl; [reflexivity | now rewrite IH]. Qed.

Lemma split_sep_noslash (s : string) : Forall (fun x => has_slash x = false) (split_sep s).
Proof.
  induction s as [|c s IH]; simpl.
  - constructor; [reflexivity | constructor].
  - destruct (Ascii.eqb c slash) eqn:Ec.
    + constructor; [reflexivity | exact IH].
    + destruct (split_sep s) as [|h t].
      * constructor; [simpl; now rewrite Ec | constructor].
      * inversion IH as [|? ? Hh Ht]; subst.
        constructor; [simpl; now rewrite Ec, Hh | exact Ht].
Qed.

Lemma clean_step_normal (r : bool) (acc : list string) (seg : string) :
  Forall normal_elem acc -> has_slash seg = false ->
  Forall normal_elem (clean_step r acc seg).
Proof.
  intros Hacc Hseg. unfold clean_step.
  destruct ((seg =? "") || (seg =? ".")) eqn:E1; [exact Hacc|].
  apply orb_false_iff in E1 as [E1 E2].
  apply String.eqb_neq in E1, E2.
  destruct (seg =? "..") eqn:E3.
  - destruct acc as [|top rest].
    + destruct r; repeat constructor; try discriminate.
    + destruct (top =? "..");
        [constructor; [repeat split; try discriminate; reflexivity | exact Hacc]
        | now inversion Hacc].
  - constructor; [repeat split; assumption | exact Hacc].
Qed.

Lemma fold_clean_step_normal (r : bool) (l acc : list string) :
  Forall (fun x => has_slash x = false) l -> Forall normal_elem acc ->
  Forall normal_elem (fold_left (clean_step r) l acc).
Proof.
  revert acc. induction l as [|x l IH]; intros acc Hl Hacc; simpl; [exact Hacc|].
  inversion Hl; subst. apply IH; [assumption|]. now apply clean_step_normal.
Qed.

Lemma clean_stack_normal (p : string) : Forall normal_elem (clean_stack p).
Proof.
  unfold clean_stack. apply fold_clean_step_normal; [apply split_sep_noslash | constructor].
Qed.

Lemma prefix_dot_slash_elem (z t : string) :
  normal_elem z -> String.prefix "./" (z ++ t) = false.
Proof.
  intros (Hne & Hdot & Hs). destruct z as [|a z']; [congruence|].
  cbn [append String.prefix]. destruct (ascii_dec "." a) as [<-|Ha]; [|reflexivity].
  destruct z' as [|b z'']; [congruence|]. cbn [append String.prefix].
  destruct (ascii_dec "/" b) as [<-|Hb]; [|reflexivity].
  discriminate.
Qed.

(** No cleaned path starts with "./". *)
Lemma Clean_no_dot_slash (x : string) : HasPrefix (Clean x) "./" = false.
Proof.
  unfold HasPrefix, Clean, render. destruct (is_rooted x); [reflexivity|].
  pose proof (clean_stack_normal x) as HN.
  destruct (clean_stack x) as [|y ys]; [reflexivity|].
  apply Forall_rev in HN.
  destruct (rev (y :: ys)) as [|z zs]; [reflexivity|].
  inversion HN as [|? ? Hz _]; subst.
  destruct zs as [|z2 zs].
  - simpl String.concat. rewrite <- (append_empty_r z). now apply prefix_dot_slash_elem.
  - cbn [String.concat]. now apply prefix_dot_slash_elem.
Qed.

(** With an empty base the guard accepts only keys that clean to ".". *)
Lemma containedPath_empty_base (key p : string) :
  containedPath "" key = Ok p -> p = ".".
Proof.
  unfold containedPath. replace (Clean "" ++ "/") with "./" by reflexivity.
  rewrite Clean_no_dot_slash. cbn [negb andb].
  match goal with |- context [String.eqb ?j ?b] => destruct (String.eqb j b) eqn:E end;
    cbn [negb]; intros H; [|discriminate].
  injection H as <-. apply String.eqb_eq in E. exact E.
Qed.

(** An empty first element of [Join] acts as "." for a relative, non-empty
    second one. *)
Lemma Join_empty_dot (dk : string) :
  dk <> "" -> is_rooted dk = false -> Join [""; dk] = Join ["."; dk].
Proof.
  intros Hne Hr. cbn [Join String.eqb].
  destruct (dk =? "") eqn:E; [apply String.eqb_eq in E; contradiction|].
  simpl String.concat. unfold Clean, clean_stack. rewrite Hr. reflexivity.
Qed.

(** ** An empty object-disk path *)

Lemma delete_loop_empty_base (ctx : Context) (keys : list string) :
  forall i acc cnt w,
    fst (delete_loop ctx i "" keys acc cnt w) = w
    /\ forall fs d, snd (delete_loop ctx i "" keys acc cnt w) = Ok (fs, d) ->
       length fs = length acc + length keys.
Proof.
  induction keys as [|key rest IH]; intros i acc cnt w; simpl.
  - split; [reflexivity|]. intros fs d H. inversion H. lia.
  - destruct (ctx i); [split; [reflexivity | discriminate]|].
    destruct (containedPath "" key) as [p|pathErr] eqn:Hc.
    + apply containedPath_empty_base in Hc. subst p.
      cbn [os_RemoveAll String.eqb endsWithDot orb].
      destruct (IH (S i) (acc ++ [(key, ErrPath "RemoveAll" "." EINVAL)])%list cnt w)
        as [H1 H2].
      split; [exact H1|]. intros fs d H. rewrite (H2 fs d H), length_app. simpl. lia.
    + destruct (IH (S i) (acc ++ [(key, pathErr)])%list cnt w) as [H1 H2].
      split; [exact H1|]. intros fs d H. rewrite (H2 fs d H), length_app. simpl. lia.
Qed.

(** C5 (counterexample): with an empty objectDiskPath, CopyObject is not
    refused: it copies b1/meta.json of /data/remote to "q", which lands in
    the working directory /data. *)
Lemma C5_copy_with_empty_object_disk :
  let r := CopyObject (mkConfig "/data/remote" "" false) 2 "" "b1/meta.json" "q"
             demo_world in
  snd r = Ok 2%Z /\ find (w_root (fst r)) ["data"; "q"] = inr (NFile [Byte.x61; Byte.x62]).
Proof. vm_compute. split; reflexivity. Qed.

(** C5 (amended): with an empty objectDiskPath, the single and batch
    object-disk deletes leave the file system untouched (every key fails:
    the guard refuses it, or it cleans to "." which os.RemoveAll refuses),
    the batch succeeding only on an empty key list; CopyObject is not
    disabled: for a relative, non-empty dstKey it behaves exactly as with
    objectDiskPath ".", the working directory. *)
Theorem C5_empty_object_disk_path (l : LocalConfig) (ctx : Context)
  (key srcBucket srcKey dstKey : string) (keys : list string) (srcSize : Z) (w : World) :
  ObjectDiskPath l = "" ->
  (fst (DeleteFileFromObjectDiskBackup l key w) = w
   /\ exists e, snd (DeleteFileFromObjectDiskBackup l key w) = Err e)
  /\ (fst (DeleteKeysFromObjectDiskBackupBatch l ctx keys w) = w
      /\ (snd (DeleteKeysFromObjectDiskBackupBatch l ctx keys w) = Ok tt -> keys = []))
  /\ (dstKey <> "" -> is_rooted dstKey = false ->
      CopyObject l srcSize srcBucket srcKey dstKey w
      = CopyObject (mkConfig (Path l) "." (Debug l)) srcSize srcBucket srcKey dstKey w).
Proof.
  intros Hl. split; [|split].
  - unfold DeleteFileFromObjectDiskBackup, bind, lift. rewrite Hl.
    destruct (containedPath "" key) as [p|e] eqn:Hc.
    + apply containedPath_empty_base in Hc. subst p. simpl.
      split; [reflexivity | eexists; reflexivity].
    + split; [reflexivity | eexists; reflexivity].
  - unfold DeleteKeysFromObjectDiskBackupBatch. rewrite Hl.
    destruct keys as [|k ks]; [split; reflexivity|].
    unfold deleteKeysBatchInternal, bind.
    destruct (delete_loop_empty_base ctx (k :: ks) 0 [] 0 w) as [H1 H2].
    destruct (delete_loop ctx 0 "" (k :: ks) [] 0 w) as [w' [[fs d]|e]] eqn:E;
      simpl in H1; subst w'.
    + specialize (H2 fs d eq_refl). simpl in H2.
      destruct fs as [|f fs]; [discriminate|]. simpl. split; [reflexivity | discriminate].
    + split; [reflexivity | discriminate].
  - intros Hne Hr. unfold CopyObject. rewrite Hl, (Join_empty_dot dstKey Hne Hr).
    reflexivity.
Qed.

Lemma C5_witness :
  ObjectDiskPath (mkConfig "/data/remote" "" false) = ""
  /\ ((fst (DeleteFileFromObjectDiskBackup (mkConfig "/data/remote" "" false) "x" demo_world)
        = demo_world
       /\ exists e, snd (DeleteFileFromObjectDiskBackup (mkConfig "/data/remote" "" false)
                          "x" demo_world) = Err e)
      /\ (fst (DeleteKeysFromObjectDiskBackupBatch (mkConfig "/data/remote" "" false)
                 background ["x"; ""] demo_world) = demo_world
          /\ (snd (DeleteKeysFromObjectDiskBackupBatch (mkConfig "/data/remote" "" false)
                     background ["x"; ""] demo_world) = Ok tt -> ["x"; ""] = []))
      /\ ("q" <> "" -> is_rooted "q" = false ->
          CopyObject (mkConfig "/data/remote" "" false) 2 "" "b1/meta.json" "q" demo_world
          = CopyObject (mkConfig "/data/remote" "." false) 2 "" "b1/meta.json" "q"
              demo_world)).
Proof.
  split; [reflexivity|].
  apply (C5_empty_object_disk_path (mkConfig "/data/remote" "" false)). reflexivity.
Defined.

(** ** The file tree *)

Lemma assoc_set_same (x : string) (v : option Node) (l : list (string * Node)) :
  assoc x (assoc_set x v l) = v.
Proof.
  induction l as [|[y n] l IH]; destruct v as [n'|]; simpl.
  - now rewrite String.eqb_refl.
  - reflexivity.
  - destruct (y =? x) eqn:E; simpl; [now rewrite E | now rewrite E].
  - destruct (y =? x) eqn:E; simpl; [exact IH | now rewrite E].
Qed.

Lemma find_update_same (c : list string) :
  forall n v ents, find n (removelast c) = inr (NDir ents) -> c <> [] ->
  find (update n c v) c = match v with Some x => inr x | None => inl ENOENT end.
Proof.
  induction c as [|x c IH]; intros n v ents Hp Hne; [congruence|].
  destruct c as [|y c].
  - simpl in Hp. injection Hp as ->. simpl. rewrite assoc_set_same. now destruct v.
  - change (removelast (x :: y :: c)) with (x :: removelast (y :: c)) in Hp.
    destruct n as [d|ents0]; [discriminate|].
    simpl in Hp. destruct (assoc x ents0) as [ch|] eqn:Ea; [|discriminate].
    simpl. rewrite Ea. simpl. rewrite assoc_set_same.
    eapply IH; [exact Hp | discriminate].
Qed.

Lemma find_update_parent (c : list string) :
  forall n v ents, find n (removelast c) = inr (NDir ents) -> c <> [] ->
  exists ents', find (update n c v) (removelast c) = inr (NDir ents').
Proof.
  induction c as [|x c IH]; intros n v ents Hp Hne; [congruence|].
  destruct c as [|y c].
  - simpl in Hp. injection Hp as ->. simpl. eexists; reflexivity.
  - change (removelast (x :: y :: c)) with (x :: removelast (y :: c)) in Hp |- *.
    destruct n as [d|ents0]; [discriminate|].
    simpl in Hp. destruct (assoc x ents0) as [ch|] eqn:Ea; [|discriminate].
    simpl. rewrite Ea. simpl. rewrite assoc_set_same.
    eapply IH; [exact Hp | discriminate].
Qed.

Lemma abs_comps_cwd (w w' : World) (p : string) :
  w_cwd w' = w_cwd w -> abs_comps w' p = abs_comps w p.
Proof. intros H. unfold abs_comps. now rewrite H. Qed.

Lemma fault_same (w w' : World) (o : Op) (p : string) :
  w_cwd w' = w_cwd w -> w_fault w' = w_fault w -> fault w' o p = fault w o p.
Proof. intros H1 H2. unfold fault. now rewrite H2, (abs_comps_cwd w w' p H1). Qed.

Lemma file_slot_set_node (w : World) (p : string) (v : option Node) :
  file_slot w p ->
  file_slot (set_node w p v) p
  /\ os_find (set_node w p v) p = match v with Some x => inr x | None => inl ENOENT end.
Proof.
  intros (Hp & Hc & ents & He). unfold os_find.
  destruct (p =? "") eqn:Ep; [apply String.eqb_eq in Ep; contradiction|].
  change (abs_comps (set_node w p v) p) with (abs_comps w p).
  change (w_root (set_node w p v)) with (update (w_root w) (abs_comps w p) v).
  split; [split; [exact Hp | split; [exact Hc|]]|].
  - exact (find_update_parent _ _ v _ He Hc).
  - exact (find_update_same _ _ v _ He Hc).
Qed.

Lemma Clean_nonempty (x : string) : Clean x <> "".
Proof.
  unfold Clean, render. destruct (is_rooted x); [discriminate|].
  pose proof (clean_stack_normal x) as HN.
  destruct (clean_stack x) as [|y ys]; [discriminate|].
  apply Forall_rev in HN.
  destruct (rev (y :: ys)) as [|z zs] eqn:Er;
    [apply (f_equal (@length _)) in Er; rewrite length_rev in Er; discriminate|].
  inversion HN as [|? ? (Hz & _) _]; subst.
  destruct z as [|a z]; [congruence|].
  destruct zs; discriminate.
Qed.

Lemma containedPath_clean (b k p : string) :
  containedPath b k = Ok p -> p = Clean (Join [b; k]).
Proof.
  unfold containedPath.
  destruct (negb _ && negb _); intros H; [discriminate | now injection H].
Qed.

Lemma containedPath_nonempty (b k p : string) : containedPath b k = Ok p -> p <> "".
Proof. intros H. rewrite (containedPath_clean b k p H). apply Clean_nonempty. Qed.

(** ** PutFile *)

Lemma os_MkdirAll_world (p : string) (w w1 : World) (r : result unit) :
  os_MkdirAll p w = (w1, r) -> w_cwd w1 = w_cwd w /\ w_fault w1 = w_fault w.
Proof.
  unfold os_MkdirAll. destruct (mkdirs w [] (w_root w) (abs_comps w p)).
  intros H. injection H as <- _. split; reflexivity.
Qed.

Lemma os_Create_ok (p : string) (w w2 : World) :
  os_Create p w = (w2, Ok tt) ->
  w2 = set_node w p (Some (NFile [])) /\ file_slot w p.
Proof.
  unfold os_Create.
  destruct (p =? "") eqn:Epe; [intros H; inversion H|].
  assert (Hp : p <> "") by (intros ->; discriminate).
  destruct (fault w OpCreate p); [intros H; inversion H|].
  destruct (abs_comps w p) as [|a c] eqn:Ec; [intros H; inversion H|].
  destruct (find (w_root w) (removelast (a :: c))) as [e|[d|ents]] eqn:Ep;
    [intros H; inversion H | intros H; inversion H|].
  destruct (find (w_root w) (a :: c)) as [e|[d|ents']];
    intros H; inversion H; subst;
    (split; [reflexivity | split; [exact Hp | rewrite Ec; split; [discriminate | eauto]]]).
Qed.

Lemma PutFile_path (l : LocalConfig) (key p : string) (r : Reader) (sz : Z) (w : World) :
  containedPath (Path l) key = Ok p -> PutFile l key r sz w = PutFileAbsolute p r sz w.
Proof. intros H. unfold PutFile, bind, lift. now rewrite H. Qed.

Lemma PutFileAbsolute_copy (p : string) (r : Reader) (sz : Z) (w w1 w2 : World) :
  os_MkdirAll (Dir p) w = (w1, Ok tt) -> os_Create p w1 = (w2, Ok tt) ->
  PutFileAbsolute p r sz w =
  match io_Copy p r w2 with
  | (w', Err e) => (fst (os_Remove p w'), Err e)
  | (w', Ok _) => (w', Ok tt)
  end.
Proof.
  intros H1 H2. unfold PutFileAbsolute, bind, wrap_err. cbv beta zeta.
  rewrite H1. cbv beta iota. rewrite H2. reflexivity.
Qed.

Lemma PutFileAbsolute_ok_stages (p : string) (r : Reader) (sz : Z) (w w' : World) :
  PutFileAbsolute p r sz w = (w', Ok tt) ->
  exists w1 w2 n, os_MkdirAll (Dir p) w = (w1, Ok tt) /\ os_Create p w1 = (w2, Ok tt)
                  /\ io_Copy p r w2 = (w', Ok n).
Proof.
  unfold PutFileAbsolute, bind, wrap_err. cbv beta zeta.
  destruct (os_MkdirAll (Dir p) w) as [w1 [[]|e]] eqn:H1; [|intros H; inversion H].
  destruct (os_Create p w1) as [w2 [[]|e]] eqn:H2; [|intros H; inversion H].
  destruct (io_Copy p r w2) as [w3 [n|e]] eqn:H3; intros H; inversion H; subst.
  exists w1, w2, n. auto.
Qed.

(** The world after a copy into an existing regular file. *)
Lemma io_Copy_file (p : string) (r : Reader) (old : list byte) (w wc : World) (res : result Z) :
  file_slot w p -> os_find w p = inr (NFile old) -> io_Copy p r w = (wc, res) ->
  w_cwd wc = w_cwd w /\ w_fault wc = w_fault w /\ file_slot wc p
  /\ exists d, os_find wc p = inr (NFile d).
Proof.
  intros Hs Hf. unfold io_Copy.
  destruct (read_all w r) as [d er].
  destruct d as [|b d].
  - destruct er; intros H; injection H as <- _; eauto 6.
  - destruct (fault w OpWrite p); [intros H; injection H as <- _; eauto 6|].
    rewrite Hf.
    destruct (file_slot_set_node w p (Some (NFile (old ++ b :: d)%list)) Hs) as [Hs' Hf'].
    destruct er; intros H; injection H as <- _; eauto 6.
Qed.

Lemma put_bytes_ok (l : LocalConfig) (key p : string) (bs : list byte) (sz : Z) (w w' : World) :
  containedPath (Path l) key = Ok p ->
  PutFile l key (RBytes bs None) sz w = (w', Ok tt) ->
  w_cwd w' = w_cwd w /\ w_fault w' = w_fault w /\ os_find w' p = inr (NFile bs).
Proof.
  intros Hc. rewrite (PutFile_path l key p _ sz w Hc).
  intros H. apply PutFileAbsolute_ok_stages in H as (w1 & w2 & n & H1 & H2 & H3).
  destruct (os_MkdirAll_world _ _ _ _ H1) as [Ew1 Fw1].
  apply os_Create_ok in H2 as [-> Hs1].
  destruct (file_slot_set_node w1 p (Some (NFile [])) Hs1) as [Hs2 Hf2].
  unfold io_Copy in H3. cbn [read_all] in H3.
  destruct bs as [|b bs].
  - injection H3 as <- _. auto.
  - destruct (fault (set_node w1 p (Some (NFile []))) OpWrite p); [discriminate|].
    rewrite Hf2 in H3. injection H3 as <- _.
    destruct (file_slot_set_node (set_node w1 p (Some (NFile []))) p
                (Some (NFile ([] ++ b :: bs)%list)) Hs2) as [_ Hf3].
    auto.
Qed.

Lemma StatFile_path (l : LocalConfig) (key p : string) (w : World) :
  containedPath (Path l) key = Ok p -> StatFile l key w = StatFileAbsolute p w.
Proof. intros H. unfold StatFile, bind, lift. now rewrite H. Qed.

Lemma GetFileReader_path (l : LocalConfig) (key p : string) (w : World) :
  containedPath (Path l) key = Ok p -> GetFileReader l key w = os_Open p w.
Proof. intros H. unfold GetFileReader, bind, lift. now rewrite H. Qed.

(** C3 (counterexample): when the host refuses the clean-up [os.Remove]
    (here EACCES), PutFile returns the reader's error but the two bytes
    written stay at the key: StatFile finds a file of size 2. *)
Lemma C3_failed_cleanup_leaves_partial_file :
  let w := mkWorld demo_tree ["data"] (remove_refused ["data"; "remote"; "b2"; "x.bin"]) [] in
  let r := PutFile demo_cfg "b2/x.bin" failing_reader 5 w in
  snd r = Err (ErrCaller "reader failed")
  /\ snd (StatFile demo_cfg "b2/x.bin" (fst r)) = Ok (mkLocalFile 2 "x.bin").
Proof. vm_compute. split; reflexivity. Qed.

(** C3 (amended): when PutFile got past MkdirAll and Create and the copy
    into the file fails (the reader's error or a failed write), PutFile
    returns that copy error, whatever the clean-up does, and its world is
    the one left by [os.Remove] on the destination.  When that removal is
    not refused by the host (and stat is not), a later StatFile on the key
    returns NotFound.  When the host refuses the removal, the refusal is
    not returned: the world is the one right after the failed copy, the
    partially written file is still at the key, and StatFile finds it. *)
Theorem C3_put_copy_failure_removes_file (l : LocalConfig) (key p : string) (r : Reader)
  (sz : Z) (w w1 w2 : World) (e : Error) :
  containedPath (Path l) key = Ok p ->
  os_MkdirAll (Dir p) w = (w1, Ok tt) ->
  os_Create p w1 = (w2, Ok tt) ->
  snd (io_Copy p r w2) = Err e ->
  snd (PutFile l key r sz w) = Err e
  /\ fst (PutFile l key r sz w) = fst (os_Remove p (fst (io_Copy p r w2)))
  /\ (fault w OpRemove p = None -> fault w OpStat p = None ->
      StatFile l key (fst (PutFile l key r sz w))
      = (fst (PutFile l key r sz w), Err ErrNotFound))
  /\ (forall er, fault w OpRemove p = Some er ->
      fst (PutFile l key r sz w) = fst (io_Copy p r w2)
      /\ exists d, os_find (fst (PutFile l key r sz w)) p = inr (NFile d)
         /\ (fault w OpStat p = None ->
             StatFile l key (fst (PutFile l key r sz w))
             = (fst (PutFile l key r sz w), Ok (mkLocalFile (Z.of_nat (length d)) (Base p))))).
Proof.
  intros Hc H1 H2 H3.
  rewrite (PutFile_path l key p r sz w Hc), (PutFileAbsolute_copy p r sz w w1 w2 H1 H2).
  destruct (os_MkdirAll_world _ _ _ _ H1) as [Ec1 Ef1].
  apply os_Create_ok in H2 as [Ew2 Hs1].
  destruct (file_slot_set_node w1 p (Some (NFile [])) Hs1) as [Hs2 Hf2].
  rewrite <- Ew2 in Hs2, Hf2.
  destruct (io_Copy p r w2) as [wc res] eqn:Ecp. cbn [snd] in H3. subst res.
  destruct (io_Copy_file p r [] w2 wc (Err e) Hs2 Hf2 Ecp) as (Ecc & Efc & Hsc & d & Hfc).
  assert (Ecw : w_cwd wc = w_cwd w) by (rewrite Ecc, Ew2, <- Ec1; reflexivity).
  assert (Efw : w_fault wc = w_fault w) by (rewrite Efc, Ew2, <- Ef1; reflexivity).
  cbn [fst snd]. split; [reflexivity|]. split; [reflexivity|]. split.
  - intros HR HS.
    assert (Hrm : os_Remove p wc = (set_node wc p None, Ok tt)).
    { unfold os_Remove. rewrite (fault_same w wc OpRemove p Ecw Efw), HR, Hfc.
      destruct Hsc as (_ & Hne & _). destruct (abs_comps wc p); [contradiction | reflexivity]. }
    rewrite Hrm. cbn [fst].
    destruct (file_slot_set_node wc p None Hsc) as [_ Hf4].
    rewrite (StatFile_path l key p _ Hc). unfold StatFileAbsolute, os_Stat.
    rewrite (fault_same w (set_node wc p None) OpStat p Ecw Efw), HS, Hf4. reflexivity.
  - intros er HR.
    assert (Hrm : os_Remove p wc = (wc, Err (ErrPath "remove" p er))).
    { unfold os_Remove. rewrite (fault_same w wc OpRemove p Ecw Efw), HR. reflexivity. }
    rewrite Hrm. cbn [fst]. split; [reflexivity|]. exists d. split; [exact Hfc|].
    intros HS. rewrite (StatFile_path l key p _ Hc). unfold StatFileAbsolute, os_Stat.
    rewrite (fault_same w wc OpStat p Ecw Efw), HS, Hfc. reflexivity.
Qed.

Lemma C3_witness :
  (snd (PutFile demo_cfg "b2/x.bin" failing_reader 5 demo_world)
   = Err (ErrCaller "reader failed")
   /\ StatFile demo_cfg "b2/x.bin" (fst (PutFile demo_cfg "b2/x.bin" failing_reader 5 demo_world))
      = (fst (PutFile demo_cfg "b2/x.bin" failing_reader 5 demo_world), Err ErrNotFound))
  /\ (let w := mkWorld demo_tree ["data"] (remove_refused ["data"; "remote"; "b2"; "x.bin"]) [] in
      snd (PutFile demo_cfg "b2/x.bin" failing_reader 5 w) = Err (ErrCaller "reader failed")
      /\ exists d, os_find (fst (PutFile demo_cfg "b2/x.bin" failing_reader 5 w))
                     "/data/remote/b2/x.bin" = inr (NFile d)).
Proof.
  split.
  - destruct (C3_put_copy_failure_removes_file demo_cfg "b2/x.bin" "/data/remote/b2/x.bin"
                failing_reader 5 demo_world
                (fst (os_MkdirAll (Dir "/data/remote/b2/x.bin") demo_world))
                (fst (os_Create "/data/remote/b2/x.bin"
                        (fst (os_MkdirAll (Dir "/data/remote/b2/x.bin") demo_world))))
                (ErrCaller "reader failed") ltac:(vm_compute; reflexivity)
                ltac:(vm_compute; reflexivity) ltac:(vm_compute; reflexivity)
                ltac:(vm_compute; reflexivity)) as (E1 & _ & E3 & _).
    split; [exact E1 | exact (E3 eq_refl eq_refl)].
  - cbv zeta.
    set (w := mkWorld demo_tree ["data"] (remove_refused ["data"; "remote"; "b2"; "x.bin"]) []).
    destruct (C3_put_copy_failure_removes_file demo_cfg "b2/x.bin" "/data/remote/b2/x.bin"
                failing_reader 5 w
                (fst (os_MkdirAll (Dir "/data/remote/b2/x.bin") w))
                (fst (os_Create "/data/remote/b2/x.bin"
                        (fst (os_MkdirAll (Dir "/data/remote/b2/x.bin") w))))
                (ErrCaller "reader failed") ltac:(vm_compute; reflexivity)
                ltac:(vm_compute; reflexivity) ltac:(vm_compute; reflexivity)
                ltac:(vm_compute; reflexivity)) as (E1 & _ & _ & E4).
    split; [exact E1|].
    destruct (E4 EACCES ltac:(vm_compute; reflexivity)) as (_ & d & Hd & _).
    exists d. exact Hd.
Defined.

(** C8: for a key the guard accepts, once PutFile has stored the bytes
    [bs] (a reader delivering [bs] then io.EOF), GetFileReader on the key
    opens a file whose content read back is exactly [bs] (when the host
    does not refuse the open or the read). *)
Theorem C8_put_get_roundtrip (l : LocalConfig) (key p : string) (bs : list byte) (sz : Z)
  (w w' : World) :
  containedPath (Path l) key = Ok p ->
  PutFile l key (RBytes bs None) sz w = (w', Ok tt) ->
  fault w OpOpen p = None -> fault w OpRead p = None ->
  exists h, GetFileReader l key w' = (w', Ok h) /\ read_all w' (RFile h) = (bs, None).
Proof.
  intros Hc Hp HO HR.
  destruct (put_bytes_ok l key p bs sz w w' Hc Hp) as (Ec & Ef & Hf).
  exists (mkHandle p). rewrite (GetFileReader_path l key p w' Hc).
  unfold os_Open, read_all. cbn [h_path].
  rewrite (fault_same w w' OpOpen p Ec Ef), (fault_same w w' OpRead p Ec Ef), HO, HR, Hf.
  split; reflexivity.
Qed.

Lemma C8_witness :
  containedPath (Path demo_cfg) "b2/new.bin" = Ok "/data/remote/b2/new.bin"
  /\ exists h,
       GetFileReader demo_cfg "b2/new.bin"
         (fst (PutFile demo_cfg "b2/new.bin" (RBytes [Byte.x61; Byte.x62; Byte.x63] None) 3
                 demo_world))
       = (fst (PutFile demo_cfg "b2/new.bin" (RBytes [Byte.x61; Byte.x62; Byte.x63] None) 3
                 demo_world), Ok h)
       /\ read_all (fst (PutFile demo_cfg "b2/new.bin"
                           (RBytes [Byte.x61; Byte.x62; Byte.x63] None) 3 demo_world))
            (RFile h) = ([Byte.x61; Byte.x62; Byte.x63], None).
Proof.
  split; [reflexivity|].
  apply (C8_put_get_roundtrip demo_cfg "b2/new.bin" "/data/remote/b2/new.bin"
           [Byte.x61; Byte.x62; Byte.x63] 3 demo_world); vm_compute; reflexivity.
Defined.

(** C10 (counterexample): a key through a regular file does not exist,
    yet StatFile propagates ENOTDIR instead of NotFound; and the name
    returned for the key "b1/.." is "remote", the base name of the cleaned
    path, not "..", the base name of the key. *)
Lemma C10_stat_not_found_and_name :
  StatFile demo_cfg "b1/meta.json/x" demo_world
  = (demo_world, Err (ErrPath "stat" "/data/remote/b1/meta.json/x" ENOTDIR))
  /\ snd (StatFile demo_cfg "b1/.." demo_world) = Ok (mkLocalFile 4096 "remote")
  /\ Base "b1/.." = "..".
Proof. vm_compute. repeat split; reflexivity. Qed.

(** C10 (amended): for a key the guard resolves to [p], StatFile returns
    NotFound exactly when stat fails with ENOENT, propagates any other
    stat error (ENOTDIR included) unchanged, and on success returns the
    size stat reports with the base name of the cleaned path [p]; after a
    successful PutFile of [bs] on the key, that size is the length of [bs]. *)
Theorem C10_statfile_contract (l : LocalConfig) (key p : string) (w : World) :
  containedPath (Path l) key = Ok p ->
  StatFile l key w
  = (w, match match fault w OpStat p with Some e => inl e | None => os_find w p end with
        | inl ENOENT => Err ErrNotFound
        | inl e => Err (ErrPath "stat" p e)
        | inr n => Ok (mkLocalFile (fi_size (info_of n)) (Base p))
        end)
  /\ (forall bs sz w0, PutFile l key (RBytes bs None) sz w0 = (w, Ok tt) ->
      fault w OpStat p = None ->
      StatFile l key w = (w, Ok (mkLocalFile (Z.of_nat (length bs)) (Base p)))).
Proof.
  intros Hc.
  assert (Hgen : StatFile l key w
    = (w, match match fault w OpStat p with Some e => inl e | None => os_find w p end with
          | inl ENOENT => Err ErrNotFound
          | inl e => Err (ErrPath "stat" p e)
          | inr n => Ok (mkLocalFile (fi_size (info_of n)) (Base p))
          end)).
  { rewrite (StatFile_path l key p w Hc). unfold StatFileAbsolute, os_Stat.
    destruct (fault w OpStat p) as [e|]; [destruct e; reflexivity|].
    destruct (os_find w p) as [e|n]; [destruct e; reflexivity | reflexivity]. }
  split; [exact Hgen|].
  intros bs sz w0 Hp HS.
  destruct (put_bytes_ok l key p bs sz w0 w Hc Hp) as (_ & _ & Hf).
  rewrite Hgen, HS, Hf. reflexivity.
Qed.

Lemma C10_witness :
  containedPath (Path demo_cfg) "b1/meta.json" = Ok "/data/remote/b1/meta.json"
  /\ StatFile demo_cfg "b1/meta.json" demo_world
     = (demo_world,
        match match fault demo_world OpStat "/data/remote/b1/meta.json" with
              | Some e => inl e
              | None => os_find demo_world "/data/remote/b1/meta.json"
              end with
        | inl ENOENT => Err ErrNotFound
        | inl e => Err (ErrPath "stat" "/data/remote/b1/meta.json" e)
        | inr n => Ok (mkLocalFile (fi_size (info_of n)) (Base "/data/remote/b1/meta.json"))
        end)
  /\ (forall bs sz w0,
      PutFile demo_cfg "b1/meta.json" (RBytes bs None) sz w0 = (demo_world, Ok tt) ->
      fault demo_world OpStat "/data/remote/b1/meta.json" = None ->
      StatFile demo_cfg "b1/meta.json" demo_world
      = (demo_world, Ok (mkLocalFile (Z.of_nat (length bs)) (Base "/data/remote/b1/meta.json")))).
Proof.
  split; [reflexivity|].
  apply (C10_statfile_contract demo_cfg "b1/meta.json" "/data/remote/b1/meta.json" demo_world).
  reflexivity.
Defined.

(** ** CopyObject *)

(** A copy into a freshly created (empty) file that succeeds leaves in it
    exactly the bytes it reports. *)
Lemma io_Copy_ok_content (p : string) (r : Reader) (w w' : World) (n : Z) :
  file_slot w p -> os_find w p = inr (NFile []) -> io_Copy p r w = (w', Ok n) ->
  exists d, n = Z.of_nat (length d) /\ os_find w' p = inr (NFile d).
Proof.
  intros Hs Hf. unfold io_Copy.
  destruct (read_all w r) as [d er].
  destruct d as [|b d].
  - destruct er; intros H; inversion H; subst. exists []. split; [reflexivity | exact Hf].
  - destruct (fault w OpWrite p); [intros H; inversion H|].
    rewrite Hf.
    destruct (file_slot_set_node w p (Some (NFile ([] ++ b :: d)%list)) Hs) as [_ Hf'].
    destruct er; intros H; inversion H; subst.
    exists (b :: d). split; [reflexivity | exact Hf'].
Qed.

Lemma CopyObject_after_mkdir (l : LocalConfig) (srcSize : Z) (srcBucket srcKey dstKey : string)
  (w w1 : World) :
  os_MkdirAll (Dir (Join [ObjectDiskPath l; dstKey])) w = (w1, Ok tt) ->
  CopyObject l srcSize srcBucket srcKey dstKey w
  = match os_Link (Join [Path l; srcKey]) (Join [ObjectDiskPath l; dstKey]) w1 with
    | (w', Ok _) => (w', Ok srcSize)
    | (w', Err _) =>
        (src <- os_Open (Join [Path l; srcKey]) ;;
         os_Create (Join [ObjectDiskPath l; dstKey]) ;;;
         io_Copy (Join [ObjectDiskPath l; dstKey]) (RFile src)) w'
    end.
Proof.
  intros H1. unfold CopyObject, bind, wrap_err. cbv beta zeta.
  rewrite H1. reflexivity.
Qed.

(** C6: once the destination's directory exists, a successful hardlink
    makes CopyObject return the caller's [srcSize]; a failed one is not
    reported: CopyObject then returns what the streamed copy (open the
    source, create the destination, io.Copy) returns, and when that
    succeeds the count it returns is the number of bytes the destination
    then holds. *)
Theorem C6_copy_link_or_stream (l : LocalConfig) (srcSize : Z)
  (srcBucket srcKey dstKey : string) (w w1 : World) :
  os_MkdirAll (Dir (Join [ObjectDiskPath l; dstKey])) w = (w1, Ok tt) ->
  (forall w2, os_Link (Join [Path l; srcKey]) (Join [ObjectDiskPath l; dstKey]) w1 = (w2, Ok tt) ->
   CopyObject l srcSize srcBucket srcKey dstKey w = (w2, Ok srcSize))
  /\ (forall w2 linkErr,
      os_Link (Join [Path l; srcKey]) (Join [ObjectDiskPath l; dstKey]) w1 = (w2, Err linkErr) ->
      CopyObject l srcSize srcBucket srcKey dstKey w
      = (src <- os_Open (Join [Path l; srcKey]) ;;
         os_Create (Join [ObjectDiskPath l; dstKey]) ;;;
         io_Copy (Join [ObjectDiskPath l; dstKey]) (RFile src)) w2
      /\ forall w' n, CopyObject l srcSize srcBucket srcKey dstKey w = (w', Ok n) ->
         exists d, n = Z.of_nat (length d)
                   /\ os_find w' (Join [ObjectDiskPath l; dstKey]) = inr (NFile d)).
Proof.
  intros H1. rewrite (CopyObject_after_mkdir l srcSize srcBucket srcKey dstKey w w1 H1).
  split.
  - intros w2 HL. now rewrite HL.
  - intros w2 le HL. rewrite HL. split; [reflexivity|].
    intros w' n. unfold bind.
    set (src := Join [Path l; srcKey]). set (dst := Join [ObjectDiskPath l; dstKey]).
    destruct (os_Open src w2) as [w3 [h|e]]; [|intros H; inversion H].
    destruct (os_Create dst w3) as [w4 [[]|e]] eqn:HC; [|intros H; inversion H].
    apply os_Create_ok in HC as [-> Hs].
    destruct (file_slot_set_node w3 dst (Some (NFile [])) Hs) as [Hs' Hf'].
    apply io_Copy_ok_content; assumption.
Qed.

Lemma C6_witness :
  os_MkdirAll (Dir (Join [ObjectDiskPath demo_cfg; "o1/m"])) demo_world
  = (fst (os_MkdirAll (Dir (Join [ObjectDiskPath demo_cfg; "o1/m"])) demo_world), Ok tt)
  /\ CopyObject demo_cfg 2 "" "b1/meta.json" "o1/m" demo_world
     = (fst (os_Link (Join [Path demo_cfg; "b1/meta.json"]) (Join [ObjectDiskPath demo_cfg; "o1/m"])
               (fst (os_MkdirAll (Dir (Join [ObjectDiskPath demo_cfg; "o1/m"])) demo_world))),
        Ok 2%Z).
Proof.
  split; [vm_compute; reflexivity|].
  apply (C6_copy_link_or_stream demo_cfg 2 "" "b1/meta.json" "o1/m" demo_world
           (fst (os_MkdirAll (Dir (Join [ObjectDiskPath demo_cfg; "o1/m"])) demo_world)));
    vm_compute; reflexivity.
Defined.

(** The fallback at work: the host refuses links across file systems. *)
Example copy_object_exdev :
  let w := mkWorld demo_tree ["data"]
             (fun o _ => match o with OpLink => Some EXDEV | _ => None end) [] in
  let r := CopyObject demo_cfg 7 "" "b1/meta.json" "o1/m" w in
  snd r = Ok 2%Z
  /\ find (w_root (fst r)) ["data"; "objects"; "o1"; "m"] = inr (NFile [Byte.x61; Byte.x62]).
Proof. vm_compute. split; reflexivity. Qed.

(** C7: CopyObject never consults the guard: it never fails with the
    escape error, and keys with ".." read and write outside the trees:
    "../../etc/passwd" (which the guard refuses) is linked to "../leak",
    i.e. /etc/passwd to /data/leak. *)
Theorem C7_copy_object_unguarded :
  (forall l srcSize srcBucket srcKey dstKey w k b,
     snd (CopyObject l srcSize srcBucket srcKey dstKey w) <> Err (ErrPathEscape k b))
  /\ containedPath (Path demo_cfg) "../../etc/passwd"
     = Err (ErrPathEscape "../../etc/passwd" "/data/remote")
  /\ containedPath (ObjectDiskPath demo_cfg) "../leak"
     = Err (ErrPathEscape "../leak" "/data/objects")
  /\ snd (CopyObject demo_cfg 1 "" "../../etc/passwd" "../leak" demo_world) = Ok 1%Z
  /\ find (w_root (fst (CopyObject demo_cfg 1 "" "../../etc/passwd" "../leak" demo_world)))
       ["data"; "leak"] = inr (NFile [Byte.x72]).
Proof.
  split; [|vm_compute; repeat split; reflexivity].
  intros l srcSize srcBucket srcKey dstKey w k b.
  unfold CopyObject, bind, wrap_err. cbv beta zeta.
  destruct (os_MkdirAll _ w) as [w1 [[]|e]]; [|discriminate].
  destruct (os_Link _ _ w1) as [w2 [[]|le]]; [discriminate|].
  unfold os_Open.
  destruct (fault w2 OpOpen _); [discriminate|].
  destruct (os_find w2 _); [discriminate|].
  unfold os_Create.
  destruct (_ =? ""); [discriminate|].
  destruct (fault w2 OpCreate _); [discriminate|].
  destruct (abs_comps w2 _) as [|x c]; [discriminate|].
  destruct (find (w_root w2) (removelast (x :: c))) as [e|[d|ents]]; try discriminate.
  destruct (find (w_root w2) (x :: c)) as [e|[d|ents']]; try discriminate;
  unfold io_Copy; cbn [read_all h_path];
  repeat match goal with
         | |- context [match ?m with _ => _ end] =>
             lazymatch m with
             | context [match _ with _ => _ end] => fail
             | _ => destruct m
             end
         end; cbn; discriminate.
Qed.

(** ** Cleaning is idempotent *)

Lemma split_sep_nonempty (s : string) : split_sep s <> [].
Proof.
  induction s as [|c s IH]; simpl; [discriminate|].
  destruct (Ascii.eqb c slash); [discriminate|]. destruct (split_sep s); discriminate.
Qed.

Lemma split_sep_app_slash (a b : string) :
  split_sep (a ++ String "/" b) = (split_sep a ++ split_sep b)%list.
Proof.
  induction a as [|c a IH]; [reflexivity|].
  cbn [append split_sep]. rewrite IH.
  destruct (Ascii.eqb c slash); [reflexivity|].
  pose proof (split_sep_nonempty a) as Hne.
  destruct (split_sep a) as [|h t]; [contradiction | reflexivity].
Qed.

Lemma split_sep_noslash_single (s : string) : has_slash s = false -> split_sep s = [s].
Proof.
  induction s as [|c s IH]; [reflexivity|].
  cbn [has_slash split_sep]. intros H. apply orb_false_iff in H as [H1 H2].
  rewrite H1, (IH H2). reflexivity.
Qed.

Lemma split_sep_concat (l : list string) :
  l <> [] -> Forall (fun x => has_slash x = false) l -> split_sep (String.concat "/" l) = l.
Proof.
  induction l as [|x l IH]; intros Hne Hl; [contradiction|].
  inversion Hl as [|? ? Hx Hl']; subst.
  destruct l as [|y l].
  - cbn [String.concat]. now apply split_sep_noslash_single.
  - replace (String.concat "/" (x :: y :: l))
      with (x ++ String "/" (String.concat "/" (y :: l))) by reflexivity.
    rewrite split_sep_app_slash, (split_sep_noslash_single x Hx), IH;
      [reflexivity | discriminate | exact Hl'].
Qed.

Lemma concat_not_rooted (x : string) (l : list string) :
  x <> "" -> has_slash x = false -> is_rooted (String.concat "/" (x :: l)) = false.
Proof.
  intros Hne Hs. destruct x as [|c x]; [congruence|].
  cbn [has_slash] in Hs. apply orb_false_iff in Hs as [Hc _].
  destruct l; simpl; exact Hc.
Qed.

(** The shape of a stack [clean_stack] produces: normal elements, and
    the ".." elements (none in a rooted path) below all the others. *)
Definition valid_stack (r : bool) (st : list string) : Prop :=
  Forall normal_elem st
  /\ exists names k, st = (names ++ repeat ".." k)%list
                     /\ Forall (fun s => s <> "..") names /\ (r = true -> k = 0).

Lemma clean_step_valid (r : bool) (st : list string) (seg : string) :
  valid_stack r st -> has_slash seg = false -> valid_stack r (clean_step r st seg).
Proof.
  intros Hv Hseg. split; [apply clean_step_normal; [apply Hv | exact Hseg]|].
  destruct Hv as [_ (names & k & Est & Hn & Hr)].
  unfold clean_step.
  destruct ((seg =? "") || (seg =? ".")) eqn:E1; [eauto|].
  destruct (seg =? "..") eqn:E3.
  - destruct st as [|top rest].
    + destruct r; [exists [], 0; repeat split; auto |].
      exists [], 1. repeat split; auto. discriminate.
    + destruct (top =? "..") eqn:Et.
      * apply String.eqb_eq in Et. subst top.
        destruct names as [|nm names].
        -- exists [], (S k). rewrite Est. repeat split; auto.
           intros Hrt. specialize (Hr Hrt). subst k. discriminate.
        -- injection Est as Enm _. inversion Hn as [|? ? Hnm _]. congruence.
      * destruct names as [|nm names].
        -- destruct k; [discriminate|]. injection Est as -> _.
           cbn in Et. discriminate.
        -- injection Est as -> ->. inversion Hn; subst. exists names, k. auto.
  - apply orb_false_iff in E1 as [_ _]. apply String.eqb_neq in E3.
    exists (seg :: names), k. rewrite Est. repeat split; auto.
Qed.

Lemma clean_stack_valid (x : string) : valid_stack (is_rooted x) (clean_stack x).
Proof.
  unfold clean_stack. pose proof (split_sep_noslash x) as Hs.
  assert (H0 : valid_stack (is_rooted x) []).
  { split; [constructor|]. exists [], 0. auto. }
  revert H0. generalize (@nil string) as acc.
  induction (split_sep x) as [|seg l IH]; intros acc Hacc; [exact Hacc|].
  inversion Hs; subst. simpl. apply IH; [assumption|]. now apply clean_step_valid.
Qed.

Lemma fold_clean_names (r : bool) (names acc : list string) :
  Forall normal_elem names -> Forall (fun s => s <> "..") names ->
  fold_left (clean_step r) (rev names) acc = (names ++ acc)%list.
Proof.
  revert acc. induction names as [|x names IH]; intros acc Hn Hd; [reflexivity|].
  inversion Hn as [|? ? (Hx1 & Hx2 & _) Hn']; inversion Hd; subst.
  simpl. rewrite fold_left_app, IH by assumption. simpl.
  unfold clean_step.
  apply String.eqb_neq in Hx1, Hx2. rewrite Hx1, Hx2. simpl.
  destruct (x =? "..") eqn:E; [apply String.eqb_eq in E; contradiction | reflexivity].
Qed.

Lemma fold_clean_dotdots (k j : nat) :
  fold_left (clean_step false) (repeat ".." k) (repeat ".." j) = repeat ".." (k + j).
Proof.
  revert j. induction k as [|k IH]; intros j; [reflexivity|].
  change (repeat ".." (S k)) with (".." :: repeat ".." k). cbn [fold_left].
  replace (clean_step false (repeat ".." j) "..") with (repeat ".." (S j))
    by (destruct j; reflexivity).
  rewrite IH. replace (k + S j) with (S k + j) by lia. reflexivity.
Qed.

Lemma fold_clean_valid (r : bool) (st : list string) :
  valid_stack r st -> fold_left (clean_step r) (rev st) [] = st.
Proof.
  intros (Hn & names & k & -> & Hd & Hr).
  rewrite rev_app_distr, rev_repeat, fold_left_app.
  replace (fold_left (clean_step r) (repeat ".." k) []) with (repeat ".." k).
  - apply Forall_app in Hn as [Hn _]. now apply fold_clean_names.
  - destruct r.
    + rewrite (Hr eq_refl). reflexivity.
    + pose proof (fold_clean_dotdots k 0) as H. simpl in H. rewrite H. f_equal. lia.
Qed.

Lemma has_slash_normal (st : list string) :
  Forall normal_elem st -> Forall (fun x => has_slash x = false) st.
Proof. intros H. eapply Forall_impl; [|exact H]. now intros a (_ & _ & Ha). Qed.

Lemma render_facts (r : bool) (st : list string) :
  valid_stack r st ->
  is_rooted (render r st) = r /\ clean_stack (render r st) = st.
Proof.
  intros Hv. pose proof Hv as (Hn & _).
  pose proof (Forall_rev Hn) as Hrn.
  destruct r.
  - unfold render. split; [reflexivity|].
    unfold clean_stack. cbn [append is_rooted split_sep Ascii.eqb slash].
    destruct st as [|y ys].
    + reflexivity.
    + rewrite split_sep_concat.
      * cbn [fold_left]. change (clean_step true [] "") with (@nil string).
        apply fold_clean_valid. exact Hv.
      * intros H. apply (f_equal (@length _)) in H. rewrite length_rev in H. discriminate.
      * now apply has_slash_normal.
  - unfold render. destruct st as [|y ys]; [split; reflexivity|].
    destruct (rev (y :: ys)) as [|z zs] eqn:Er;
      [apply (f_equal (@length _)) in Er; rewrite length_rev in Er; discriminate|].
    inversion Hrn as [|? ? (Hz1 & _ & Hz2) _]; subst.
    assert (Hroot : is_rooted (String.concat "/" (z :: zs)) = false)
      by now apply concat_not_rooted.
    split; [exact Hroot|].
    unfold clean_stack. rewrite Hroot, split_sep_concat.
    + rewrite <- Er. apply fold_clean_valid. exact Hv.
    + discriminate.
    + apply has_slash_normal. exact Hrn.
Qed.

Lemma Clean_idem (x : string) :
  is_rooted (Clean x) = is_rooted x /\ clean_stack (Clean x) = clean_stack x.
Proof. apply render_facts, clean_stack_valid. Qed.

(** ** Paths below a prefix *)

Lemma valid_name_spec (nm : string) :
  valid_name nm = true -> nm <> "" /\ nm <> "." /\ nm <> ".." /\ has_slash nm = false.
Proof.
  unfold valid_name. intros H.
  apply andb_prop in H as [H H4]. apply andb_prop in H as [H H3].
  apply andb_prop in H as [H1 H2].
  apply negb_true_iff in H1, H2, H3, H4. apply String.eqb_neq in H1, H2, H3.
  auto.
Qed.

Lemma is_rooted_app (q t : string) : q <> "" -> is_rooted (q ++ t) = is_rooted q.
Proof. destruct q; [congruence | reflexivity]. Qed.

Lemma Join_child (q nm : string) :
  q <> "" -> valid_name nm = true ->
  Join [q; nm] <> "" /\ is_rooted (Join [q; nm]) = is_rooted q
  /\ clean_stack (Join [q; nm]) = nm :: clean_stack q.
Proof.
  intros Hq Hnm. apply valid_name_spec in Hnm as (N1 & N2 & N3 & N4).
  assert (EJ : Join [q; nm] = Clean (q ++ String "/" nm)).
  { cbn [Join]. destruct (q =? "") eqn:E; [apply String.eqb_eq in E; contradiction|].
    reflexivity. }
  rewrite EJ. destruct (Clean_idem (q ++ String "/" nm)) as [R S].
  rewrite R, S, (is_rooted_app q _ Hq).
  split; [apply Clean_nonempty|]. split; [reflexivity|].
  unfold clean_stack. rewrite (is_rooted_app q _ Hq), split_sep_app_slash,
    (split_sep_noslash_single nm N4), fold_left_app. cbn [fold_left].
  unfold clean_step at 1.
  apply String.eqb_neq in N1, N2, N3. rewrite N1, N2, N3. reflexivity.
Qed.

Lemma abs_comps_child (w : World) (q q' nm : string) :
  is_rooted q' = is_rooted q -> clean_stack q' = nm :: clean_stack q -> nm <> ".." ->
  abs_comps w q' = (abs_comps w q ++ [nm])%list.
Proof.
  intros R S N. unfold abs_comps. rewrite R, S. cbn [rev]. rewrite fold_left_app.
  cbn [fold_left]. apply String.eqb_neq in N. now rewrite N.
Qed.

Lemma below_self (p : string) : p <> "" -> below p p [].
Proof. intros H. repeat split; auto. Qed.

Lemma below_child (p q nm : string) (rel : list string) :
  below p q rel -> valid_name nm = true -> below p (Join [q; nm]) (rel ++ [nm]).
Proof.
  intros (Hq & R & S & V) Hnm.
  destruct (Join_child q nm Hq Hnm) as (J1 & J2 & J3).
  repeat split.
  - exact J1.
  - now rewrite J2.
  - rewrite J3, S, rev_app_distr. reflexivity.
  - rewrite forallb_app, V. simpl. now rewrite Hnm.
Qed.

Lemma below_abs_comps (w : World) (p q nm : string) (rel : list string) :
  below p q rel -> valid_name nm = true ->
  abs_comps w (Join [q; nm]) = (abs_comps w q ++ [nm])%list.
Proof.
  intros (Hq & _) Hnm. destruct (Join_child q nm Hq Hnm) as (_ & J2 & J3).
  apply abs_comps_child; [exact J2 | exact J3 | apply (valid_name_spec nm Hnm)].
Qed.

Lemma split_sep_render (r : bool) (st : list string) :
  valid_stack r st ->
  split_sep (render r st)
  = if r then "" :: match st with [] => [""] | _ => rev st end
    else match st with [] => ["."] | _ => rev st end.
Proof.
  intros (Hn & _). pose proof (has_slash_normal _ (Forall_rev Hn)) as Hs.
  unfold render. destruct r.
  - cbn [append split_sep Ascii.eqb slash].
    destruct st as [|y ys]; [reflexivity|].
    rewrite split_sep_concat; [reflexivity | | exact Hs].
    intros H. apply (f_equal (@length _)) in H. rewrite length_rev in H. discriminate.
  - destruct st as [|y ys]; [reflexivity|].
    rewrite split_sep_concat; [reflexivity | | exact Hs].
    intros H. apply (f_equal (@length _)) in H. rewrite length_rev in H. discriminate.
Qed.

Lemma concat_not_dot (z : string) (zs : list string) :
  z <> "" -> z <> "." -> String.concat "/" (z :: zs) <> ".".
Proof.
  intros H1 H2. destruct zs as [|y zs]; [exact H2|].
  destruct z as [|a z]; [congruence|].
  cbn [String.concat append]. destruct z; discriminate.
Qed.

Lemma drop_common_app (l m : list string) : drop_common l (l ++ m) = ([], m).
Proof.
  induction l as [|x l IH]; [destruct m; reflexivity|].
  cbn [app drop_common]. now rewrite String.eqb_refl.
Qed.

Lemma valid_rel (rel : list string) :
  forallb valid_name rel = true -> Forall normal_elem rel.
Proof.
  intros H. rewrite forallb_forall in H. apply Forall_forall.
  intros x Hx. destruct (valid_name_spec x (H x Hx)) as (? & ? & _ & ?).
  repeat split; assumption.
Qed.
Lemma split_sep_render_cons (r : bool) (st : list string) :
  valid_stack r st -> st <> [] ->
  split_sep (render r st) = if r then "" :: rev st else rev st.
Proof.
  intros Hv Hne. rewrite (split_sep_render r st Hv).
  destruct st; [contradiction|]. reflexivity.
Qed.

Lemma Rel_below (p q : string) (rel : list string) :
  below p q rel ->
  Rel p q = Some (match rel with [] => "." | _ => String.concat "/" rel end).
Proof.
  intros (Hq & R & S & V).
  unfold Rel.
  assert (CQ : Clean q = render (is_rooted p) (rev rel ++ clean_stack p))
    by (unfold Clean; now rewrite R, S).
  assert (CP : Clean p = render (is_rooted p) (clean_stack p)) by reflexivity.
  destruct rel as [|x rel'].
  - cbn [rev app] in CQ. rewrite CQ, <- CP, String.eqb_refl. reflexivity.
  - assert (Hneq : (Clean p =? Clean q) = false).
    { apply String.eqb_neq. intros E. apply (f_equal clean_stack) in E.
      rewrite (proj2 (Clean_idem p)), (proj2 (Clean_idem q)), S in E.
      apply (f_equal (@length _)) in E. rewrite length_app, length_rev in E.
      simpl in E. lia. }
    rewrite Hneq.
    pose proof (clean_stack_valid p) as Vp. pose proof (clean_stack_valid q) as Vq.
    rewrite R, S in Vq.
    pose proof (valid_rel _ V) as VN. inversion VN as [|? ? (Hx1 & Hx2 & Hx3) _]; subst.
    rewrite CP, CQ.
    assert (Hqne : (rev (x :: rel') ++ clean_stack p)%list <> []).
    { intros H. apply (f_equal (@length _)) in H. rewrite length_app, length_rev in H.
      simpl in H. lia. }
    rewrite (proj1 (render_facts _ _ Vq)), (split_sep_render_cons _ _ Vq Hqne).
    rewrite rev_app_distr, rev_involutive.
    destruct (is_rooted p) eqn:Er; destruct (clean_stack p) as [|y ys] eqn:Es.
    + cbn. destruct x as [|a x']; [congruence|]. reflexivity.
    + replace (render true (y :: ys) =? ".") with false by reflexivity.
      rewrite (proj1 (render_facts _ _ Vp)), (split_sep_render_cons _ _ Vp ltac:(discriminate)).
      cbn [Bool.eqb negb].
      change ("" :: rev (y :: ys) ++ x :: rel')%list with (("" :: rev (y :: ys)) ++ x :: rel')%list.
      rewrite drop_common_app. reflexivity.
    + cbn. destruct x as [|a x']; [congruence|]. reflexivity.
    + assert (Hnd : (render false (y :: ys) =? ".") = false).
      { apply String.eqb_neq. unfold render.
        pose proof (Forall_rev (proj1 Vp)) as Hrn.
        destruct (rev (y :: ys)) as [|z zs] eqn:Erv;
          [apply (f_equal (@length _)) in Erv; rewrite length_rev in Erv; discriminate|].
        inversion Hrn as [|? ? (Hz1 & Hz2 & _) _]. now apply concat_not_dot. }
      rewrite Hnd.
      rewrite (proj1 (render_facts _ _ Vp)), (split_sep_render_cons _ _ Vp ltac:(discriminate)).
      cbn [Bool.eqb negb].
      rewrite drop_common_app. reflexivity.
Qed.

(** ** The recursive walk *)

Lemma log_app_nil (w : World) : log_app w [] = w.
Proof. destruct w. unfold log_app. cbn. now rewrite app_nil_r. Qed.

Lemma log_app_app (w : World) (a b : list (Z * string)) :
  log_app (log_app w a) b = log_app w (a ++ b).
Proof. unfold log_app. cbn. now rewrite app_assoc. Qed.

Lemma find_app (n m : Node) (a b : list string) :
  find n a = inr m -> find n (a ++ b) = find m b.
Proof.
  revert n. induction a as [|x a IH]; intros n H.
  - now injection H as ->.
  - destruct n as [d|ents]; [discriminate|]. cbn in H |- *.
    destruct (assoc x ents); [now apply IH | discriminate].
Qed.

Lemma assoc_in (ents : list (string * Node)) (x : string) (c : Node) :
  nodup_names (map fst ents) = true -> In (x, c) ents -> assoc x ents = Some c.
Proof.
  induction ents as [|[y d] l IH]; intros Hnd Hin; [contradiction|].
  cbn in Hnd. apply andb_prop in Hnd as [Hy Hl].
  cbn. destruct (y =? x) eqn:E.
  - destruct Hin as [Heq|Hin]; [now injection Heq as -> ->|].
    apply String.eqb_eq in E. subst y.
    apply negb_true_iff in Hy.
    assert (Hex : existsb (String.eqb x) (map fst l) = true).
    { apply existsb_exists. exists x. split; [|apply String.eqb_refl].
      apply in_map_iff. now exists (x, c). }
    congruence.
  - destruct Hin as [Heq|Hin].
    + injection Heq as -> ->. now rewrite String.eqb_refl in E.
    + now apply IH.
Qed.

Lemma wf_dir_inv (ents : list (string * Node)) :
  wf_node (NDir ents) = true ->
  nodup_names (map fst ents) = true
  /\ forall x c, In (x, c) ents -> valid_name x = true /\ wf_node c = true.
Proof.
  cbn [wf_node]. intros H. apply andb_prop in H as [H1 H2]. split; [exact H1|].
  clear H1. induction ents as [|[y d] l IH]; intros x c Hin; [contradiction|].
  apply andb_prop in H2 as [H2 H3]. apply andb_prop in H2 as [Hy Hd].
  destruct Hin as [Heq|Hin]; [injection Heq as -> ->; auto | exact (IH H3 x c Hin)].
Qed.

Lemma in_insert_name (e x : string * Node) (l : list (string * Node)) :
  In e (insert_name x l) -> e = x \/ In e l.
Proof.
  induction l as [|y l IH]; cbn; [intuition|].
  destruct (String.leb (fst x) (fst y)); cbn; [intuition|].
  intros [H|H]; [auto|]. destruct (IH H); auto.
Qed.

Lemma in_sort_names (e : string * Node) (l : list (string * Node)) :
  In e (sort_names l) -> In e l.
Proof.
  unfold sort_names. induction l as [|x l IH]; cbn; [auto|].
  intros H. destruct (in_insert_name e x _ H); auto.
Qed.

Lemma height_child (ents : list (string * Node)) (x : string) (c : Node) :
  In (x, c) ents -> height c < height (NDir ents).
Proof.
  induction ents as [|[y d] l IH]; intros Hin; [contradiction|].
  cbn [height] in *. destruct Hin as [Heq|Hin].
  - injection Heq as -> ->. lia.
  - specialize (IH Hin). lia.
Qed.

Lemma height_find (n m : Node) (c : list string) :
  find n c = inr m -> height m <= height n.
Proof.
  revert n. induction c as [|x c IH]; intros n H.
  - injection H as ->. lia.
  - destruct n as [d|ents]; [discriminate|]. cbn [find] in H.
    destruct (assoc x ents) as [ch|] eqn:Ea; [|discriminate].
    assert (Hin : In (x, ch) ents).
    { clear -Ea. induction ents as [|[y d] l IHl]; [discriminate|].
      cbn in Ea. destruct (y =? x) eqn:E.
      - injection Ea as ->. apply String.eqb_eq in E. subst. now left.
      - right. now apply IHl. }
    pose proof (height_child ents x ch Hin). specialize (IH ch H). lia.
Qed.

Lemma flat_map_ext_on {A B : Type} (f g : A -> list B) (l : list A) :
  (forall a, In a l -> f a = g a) -> flat_map f l = flat_map g l.
Proof.
  induction l as [|a l IH]; intros H; [reflexivity|].
  cbn. rewrite (H a (or_introl eq_refl)), IH; [reflexivity|].
  intros b Hb. apply H. now right.
Qed.

Lemma entries_fuel (F : nat) :
  forall G n, height n <= F -> height n <= G -> entries_of F n = entries_of G n.
Proof.
  induction F as [|F IH]; intros G n HF HG.
  - destruct n as [d|ents]; [destruct G; reflexivity | cbn in HF; lia].
  - destruct n as [d|ents]; [destruct G; reflexivity|].
    destruct G as [|G]; [cbn in HG; lia|].
    cbn [entries_of]. apply flat_map_ext_on. intros [x c] Hin.
    apply in_sort_names in Hin. pose proof (height_child ents x c Hin).
    cbn [fst snd]. rewrite (IH G c) by lia. reflexivity.
Qed.

Lemma os_Lstat_found (w : World) (q : string) (n : Node) (l : list (Z * string)) :
  (forall o c, w_fault w o c = None) -> os_find w q = inr n ->
  os_Lstat q (log_app w l) = (log_app w l, Ok (info_of n)).
Proof.
  intros Hf Hn. unfold os_Lstat, fault. cbn [w_fault log_app]. rewrite Hf.
  change (os_find (log_app w l) q) with (os_find w q). now rewrite Hn.
Qed.

Lemma os_ReadDir_found (w : World) (q : string) (ents : list (string * Node))
  (l : list (Z * string)) :
  (forall o c, w_fault w o c = None) -> os_find w q = inr (NDir ents) ->
  os_ReadDir q (log_app w l) = (log_app w l, Ok (sort_names ents)).
Proof.
  intros Hf Hn. unfold os_ReadDir, fault. cbn [w_fault log_app]. rewrite Hf.
  change (os_find (log_app w l) q) with (os_find w q). now rewrite Hn.
Qed.

Lemma os_find_child (w : World) (p q x : string) (rel : list string)
  (ents : list (string * Node)) (c : Node) :
  below p q rel -> os_find w q = inr (NDir ents) ->
  nodup_names (map fst ents) = true -> In (x, c) ents -> valid_name x = true ->
  os_find w (Join [q; x]) = inr c.
Proof.
  intros Hb Hq Hnd Hin Hx.
  pose proof Hb as (Hqne & _). destruct (Join_child q x Hqne Hx) as (J1 & _).
  unfold os_find in Hq |- *.
  destruct (q =? "") eqn:E; [discriminate|].
  destruct (Join [q; x] =? "") eqn:E'; [apply String.eqb_eq in E'; contradiction|].
  rewrite (below_abs_comps w p q x rel Hb Hx), (find_app _ _ _ _ Hq).
  cbn. now rewrite (assoc_in ents x c Hnd Hin).
Qed.

(** The entry the walk reports for the node reached along [rel]: none for
    the prefix itself. *)
Lemma walk_callback_below (p q : string) (rel : list string) (info : FileInfo)
  (w : World) (l : list (Z * string)) :
  below p q rel ->
  walk_callback p collect q (Some info) None (log_app w l)
  = (log_app w (l ++ match rel with [] => [] | _ => [(fi_size info, String.concat "/" rel)] end),
     Ok tt).
Proof.
  intros Hb. pose proof Hb as (_ & _ & _ & V).
  unfold walk_callback. rewrite (Rel_below p q rel Hb).
  destruct rel as [|x rel'].
  - cbn. now rewrite app_nil_r.
  - cbn [forallb] in V. apply andb_prop in V as [Vx _].
    destruct (valid_name_spec x Vx) as (N1 & N2 & _).
    destruct (String.concat "/" (x :: rel') =? ".") eqn:E;
      [apply String.eqb_eq in E; exfalso; exact (concat_not_dot x rel' N1 N2 E)|].
    unfold collect. cbn [lf_size lf_name]. unfold log_app. cbn.
    now rewrite app_assoc.
Qed.

Lemma walk_names_spec (walk : string -> FileInfo -> M unit) (fn : WalkFunc) (q : string)
  (w : World) (L : list (string * Node)) (G : string * Node -> list (Z * string)) :
  (forall e, In e L -> forall l,
     os_Lstat (Join [q; fst e]) (log_app w l) = (log_app w l, Ok (info_of (snd e)))) ->
  (forall e, In e L -> forall l,
     walk (Join [q; fst e]) (info_of (snd e)) (log_app w l) = (log_app w (l ++ G e), Ok tt)) ->
  forall l, walk_names walk fn q (map fst L) (log_app w l)
            = (log_app w (l ++ flat_map G L), Ok tt).
Proof.
  induction L as [|e L IH]; intros HS HW l.
  - cbn. now rewrite app_nil_r.
  - cbn [map walk_names flat_map].
    rewrite (HS e (or_introl eq_refl) l). unfold bind.
    rewrite (HW e (or_introl eq_refl) l).
    rewrite IH; [now rewrite app_assoc | |].
    + intros e' He'. apply HS. now right.
    + intros e' He'. apply HW. now right.
Qed.

Lemma self_entry_app (A : Type) (rel : list string) (x : string) (a b : A) :
  match (rel ++ [x])%list with [] => a | _ => b end = b.
Proof. destruct rel; reflexivity. Qed.

Lemma flat_map_nil_fun {A B : Type} (L : list A) : flat_map (fun _ => @nil B) L = [].
Proof. induction L; [reflexivity | exact IHL]. Qed.

Lemma entries_of_file (F : nat) (d : list byte) : entries_of F (NFile d) = [].
Proof. destruct F; reflexivity. Qed.

(** What the recursive walk reports below a node reached along [rel]. *)
Lemma fp_walk_below (p : string) (F : nat) :
  forall n q rel w l,
  (forall o c, w_fault w o c = None) -> wf_node n = true ->
  os_find w q = inr n -> below p q rel ->
  fp_walk (S F) (walk_callback p collect) q (info_of n) (log_app w l)
  = (log_app w (l ++ match rel with [] => [] | _ => [(fi_size (info_of n), String.concat "/" rel)] end
                  ++ map (fun e => (fst e, String.concat "/" (rel ++ snd e))) (entries_of F n))%list,
     Ok tt).
Proof.
  induction F as [|F IH]; intros n q rel w l Hf Hwf Hq Hb.
  - destruct n as [d|ents].
    + cbn [fp_walk info_of fi_isdir negb]. rewrite (walk_callback_below p q rel _ w l Hb).
      cbn [entries_of map]. now rewrite app_nil_r.
    + cbn [fp_walk info_of fi_isdir negb].
      rewrite (os_ReadDir_found w q ents l Hf Hq).
      rewrite (walk_callback_below p q rel _ w l Hb).
      destruct (wf_dir_inv ents Hwf) as [Hnd Hch].
      rewrite (walk_names_spec _ _ q w (sort_names ents) (fun _ => [])).
      * cbn [entries_of map]. rewrite flat_map_nil_fun, !app_nil_r. reflexivity.
      * intros [x c] Hin l'. apply in_sort_names in Hin.
        destruct (Hch x c Hin) as [Hx _].
        apply os_Lstat_found; [exact Hf|].
        exact (os_find_child w p q x rel ents c Hb Hq Hnd Hin Hx).
      * intros e _ l'. cbn. now rewrite app_nil_r.
  - set (G := S F) in IH |- *. destruct n as [d|ents].
    + cbn [fp_walk info_of fi_isdir negb]. rewrite (walk_callback_below p q rel _ w l Hb).
      rewrite entries_of_file. cbn [map]. now rewrite app_nil_r.
    + cbn [fp_walk info_of fi_isdir negb].
      rewrite (os_ReadDir_found w q ents l Hf Hq).
      rewrite (walk_callback_below p q rel _ w l Hb).
      destruct (wf_dir_inv ents Hwf) as [Hnd Hch].
      rewrite (walk_names_spec _ _ q w (sort_names ents)
                 (fun e => (fi_size (info_of (snd e)), String.concat "/" (rel ++ [fst e]))
                           :: map (fun y => (fst y, String.concat "/" ((rel ++ [fst e]) ++ snd y)))
                                (entries_of F (snd e)))).
      * rewrite <- app_assoc. f_equal. f_equal. f_equal. f_equal.
        unfold G. cbn [entries_of]. clear IH Hch.
        induction (sort_names ents) as [|[x c] L IHL]; [reflexivity|].
        cbn [flat_map]. rewrite map_app, IHL. f_equal.
        cbn [map fst snd]. f_equal. rewrite map_map. apply map_ext. intros y.
        cbn [fst snd]. now rewrite <- app_assoc.
      * intros [x c] Hin l'. apply in_sort_names in Hin.
        destruct (Hch x c Hin) as [Hx _].
        apply os_Lstat_found; [exact Hf|].
        exact (os_find_child w p q x rel ents c Hb Hq Hnd Hin Hx).
      * intros [x c] Hin l'. apply in_sort_names in Hin.
        destruct (Hch x c Hin) as [Hx Hc]. cbn [fst snd].
        rewrite (IH c (Join [q; x]) (rel ++ [x])%list w l' Hf Hc
                   (os_find_child w p q x rel ents c Hb Hq Hnd Hin Hx)
                   (below_child p q x rel Hb Hx)).
        rewrite self_entry_app. reflexivity.
Qed.

Lemma concat_nonempty (x : string) (r : list string) :
  x <> "" -> String.concat "/" (x :: r) <> "".
Proof.
  intros H. destruct x as [|a x]; [congruence|]. destruct r; discriminate.
Qed.

Lemma entries_names (F : nat) (n : Node) :
  wf_node n = true ->
  Forall (fun e => exists x r, snd e = x :: r /\ valid_name x = true) (entries_of F n).
Proof.
  intros Hwf. destruct F as [|F]; [constructor|].
  destruct n as [d|ents]; [constructor|].
  destruct (wf_dir_inv ents Hwf) as [_ Hch].
  apply Forall_forall. intros e He. cbn [entries_of] in He.
  apply in_flat_map in He as [[x c] [Hin He]]. apply in_sort_names in Hin.
  destruct (Hch x c Hin) as [Hx _]. cbn [fst snd] in He.
  destruct He as [<-|He]; [now exists x, []|].
  apply in_map_iff in He as [y [<- _]]. now exists x, (snd y).
Qed.

(** C9 (counterexample): the recursive walk of "b1" reports the
    directory "sub" as an entry of its own, besides the files meta.json
    and sub/part. *)
Lemma C9_walk_reports_directories :
  w_log (fst (Walk demo_cfg "b1" true collect demo_world))
  = [(2%Z, "meta.json"); (4096%Z, "sub"); (1%Z, "sub/part")]
  /\ find demo_tree ["data"; "remote"; "b1"; "sub"] = inr (NDir [("part", NFile [Byte.x63])]).
Proof. vm_compute. split; reflexivity. Qed.

(** C9 (amended): for a prefix that is an existing directory of a
    well-formed tree (and a host that refuses nothing), the recursive Walk
    succeeds and hands the visitor exactly [walk_listing]: one entry per
    file AND per directory below the prefix, each directory before its
    contents and siblings in name order, named by its path relative to the
    prefix with "/" between the names, and the prefix itself left out: no
    entry is named "." or "". *)
Theorem C9_recursive_walk_lists_subtree (l : LocalConfig) (remotePath : string) (w : World)
  (ents : list (string * Node)) :
  (forall o c, w_fault w o c = None) ->
  os_find w (Join [Path l; remotePath]) = inr (NDir ents) ->
  wf_node (NDir ents) = true ->
  Walk l remotePath true collect w = (log_app w (walk_listing (NDir ents)), Ok tt)
  /\ Forall (fun e => snd e <> "." /\ snd e <> "") (walk_listing (NDir ents)).
Proof.
  intros Hf Hp Hwf. set (p := Join [Path l; remotePath]) in *.
  assert (Hpne : p <> "") by (intros E; rewrite E in Hp; discriminate).
  split.
  - pose proof (os_Lstat_found w p _ [] Hf Hp) as HS. rewrite log_app_nil in HS.
    pose proof (fp_walk_below p (height (w_root w)) (NDir ents) p [] w [] Hf Hwf Hp
                  (below_self p Hpne)) as HW.
    rewrite log_app_nil in HW.
    unfold Walk, WalkAbsolute, filepath_Walk. fold p. rewrite HS, HW.
    unfold walk_listing. cbn [app].
    assert (Hh : height (NDir ents) <= height (w_root w)).
    { unfold os_find in Hp. destruct (p =? "") eqn:E; [discriminate|].
      exact (height_find _ _ _ Hp). }
    rewrite (entries_fuel (height (w_root w)) (height (NDir ents)) (NDir ents) Hh (le_n _)).
    reflexivity.
  - unfold walk_listing. apply Forall_map.
    eapply Forall_impl; [|exact (entries_names (height (NDir ents)) (NDir ents) Hwf)].
    intros e (x & r & Hs & Hx). cbn [fst snd]. rewrite Hs.
    destruct (valid_name_spec x Hx) as (N1 & N2 & _).
    split; [exact (concat_not_dot x r N1 N2) | exact (concat_nonempty x r N1)].
Qed.

Lemma C9_witness :
  (forall o c, w_fault demo_world o c = None)
  /\ os_find demo_world (Join [Path demo_cfg; "b1"])
     = inr (NDir [("meta.json", NFile [Byte.x61; Byte.x62]);
                  ("sub", NDir [("part", NFile [Byte.x63])])])
  /\ wf_node (NDir [("meta.json", NFile [Byte.x61; Byte.x62]);
                    ("sub", NDir [("part", NFile [Byte.x63])])]) = true
  /\ Walk demo_cfg "b1" true collect demo_world
     = (log_app demo_world
          (walk_listing (NDir [("meta.json", NFile [Byte.x61; Byte.x62]);
                               ("sub", NDir [("part", NFile [Byte.x63])])])), Ok tt).
Proof.
  assert (Hf : forall o c, w_fault demo_world o c = None) by reflexivity.
  assert (Hp : os_find demo_world (Join [Path demo_cfg; "b1"])
               = inr (NDir [("meta.json", NFile [Byte.x61; Byte.x62]);
                            ("sub", NDir [("part", NFile [Byte.x63])])]))
    by (vm_compute; reflexivity).
  assert (Hw : wf_node (NDir [("meta.json", NFile [Byte.x61; Byte.x62]);
                              ("sub", NDir [("part", NFile [Byte.x63])])]) = true)
    by (vm_compute; reflexivity).
  split; [exact Hf|]. split; [exact Hp|]. split; [exact Hw|].
  exact (proj1 (C9_recursive_walk_lists_subtree demo_cfg "b1" demo_world _ Hf Hp Hw)).
Defined.

(** * Further properties of the backend *)

(** ** The guard: keys naming the base, leading separators, absolute bases *)

Lemma Clean_Clean (x : string) : Clean (Clean x) = Clean x.
Proof. unfold Clean at 1. destruct (Clean_idem x) as [R S]. rewrite R, S. reflexivity. Qed.

Lemma Join2 (b k : string) : b <> "" -> Join [b; k] = Clean (b ++ String "/" k).
Proof.
  intros H. cbn [Join]. destruct (b =? "") eqn:E; [apply String.eqb_eq in E; contradiction|].
  reflexivity.
Qed.

Lemma Clean_sep_tail (x t : string) :
  x <> "" -> t = "" \/ t = "." -> Clean (x ++ String "/" t) = Clean x.
Proof.
  intros Hx Ht. unfold Clean, clean_stack. rewrite (is_rooted_app x _ Hx).
  rewrite split_sep_app_slash, fold_left_app.
  destruct Ht as [-> | ->]; reflexivity.
Qed.

Lemma string_app_assoc (a b c : string) : (a ++ b) ++ c = a ++ (b ++ c).
Proof. induction a as [|x a IH]; cbn; [reflexivity | now rewrite IH]. Qed.

Lemma prefix_app (s1 s2 : string) : String.prefix s1 s2 = true -> exists t, s2 = s1 ++ t.
Proof.
  revert s2. induction s1 as [|a s1 IH]; intros s2 H; [now exists s2|].
  destruct s2 as [|b s2]; [discriminate|].
  cbn in H. destruct (ascii_dec a b) as [->|]; [|discriminate].
  destruct (IH s2 H) as [t ->]. now exists t.
Qed.

Lemma fold_abs_noddot (L acc : list string) :
  Forall (fun s => s <> "..") L ->
  fold_left (fun acc s => if s =? ".." then removelast acc else (acc ++ [s])%list) L acc
  = (acc ++ L)%list.
Proof.
  revert acc. induction L as [|x L IH]; intros acc H; [now rewrite app_nil_r|].
  inversion H as [|? ? Hx HL]; subst. cbn [fold_left].
  apply String.eqb_neq in Hx. rewrite Hx, IH by exact HL. now rewrite <- app_assoc.
Qed.

Lemma rooted_stack_noddot (x : string) :
  is_rooted x = true ->
  Forall normal_elem (clean_stack x) /\ Forall (fun s => s <> "..") (clean_stack x).
Proof.
  intros R. pose proof (clean_stack_valid x) as (Hn & names & k & Est & Hd & Hk).
  rewrite R in Hk. rewrite (Hk eq_refl), app_nil_r in Est. rewrite Est in Hn |- *.
  split; assumption.
Qed.

Lemma abs_comps_rooted (w : World) (x : string) :
  is_rooted x = true -> abs_comps w x = rev (clean_stack x).
Proof.
  intros R. unfold abs_comps. rewrite R.
  apply fold_abs_noddot. apply Forall_rev. apply (rooted_stack_noddot x R).
Qed.

Lemma rooted_valid_names (x : string) :
  is_rooted x = true -> forallb valid_name (rev (clean_stack x)) = true.
Proof.
  intros R. destruct (rooted_stack_noddot x R) as [Hn Hd].
  apply forallb_forall. intros s Hs. apply in_rev in Hs.
  rewrite Forall_forall in Hn, Hd.
  destruct (Hn s Hs) as (N1 & N2 & N3). specialize (Hd s Hs).
  unfold valid_name. apply String.eqb_neq in N1, N2, Hd. now rewrite N1, N2, Hd, N3.
Qed.

Lemma abs_comps_Clean (w : World) (x : string) : abs_comps w (Clean x) = abs_comps w x.
Proof. unfold abs_comps. destruct (Clean_idem x) as [R S]. now rewrite R, S. Qed.

Lemma containedPath_rooted (b k p : string) :
  containedPath b k = Ok p -> is_rooted b = true ->
  p = Clean (b ++ String "/" k) /\ is_rooted p = true.
Proof.
  intros H R. assert (Hb : b <> "") by (intros ->; discriminate).
  rewrite (containedPath_clean b k p H), Join2, Clean_Clean by exact Hb.
  split; [reflexivity|]. rewrite (proj1 (Clean_idem _)), is_rooted_app; assumption.
Qed.

Lemma containedPath_within (w : World) (b k p : string) :
  containedPath b k = Ok p -> is_rooted b = true ->
  exists rest, abs_comps w p = (abs_comps w b ++ rest)%list /\ forallb valid_name rest = true.
Proof.
  intros H R. destruct (containedPath_rooted b k p H R) as [Ep Rp].
  assert (Hb : b <> "") by (intros ->; discriminate).
  unfold containedPath in H. rewrite Join2, Clean_Clean in H by exact Hb. rewrite <- Ep in H.
  rewrite (abs_comps_rooted w p Rp), (abs_comps_rooted w b R).
  destruct (negb (HasPrefix p (Clean b ++ "/")) && negb (p =? Clean b)) eqn:C; [discriminate|].
  clear H. apply andb_false_iff in C as [C|C]; apply negb_false_iff in C.
  - destruct (clean_stack b) as [|y ys] eqn:Sb.
    + exists (rev (clean_stack p)). split; [reflexivity|]. now apply rooted_valid_names.
    + unfold HasPrefix in C. apply prefix_app in C as [t Et].
      assert (Ep' : p = render true (clean_stack p)).
      { rewrite Ep at 1. unfold Clean. destruct (Clean_idem (b ++ String "/" k)) as [R' S'].
        rewrite <- Ep in R', S'. rewrite R' in Rp. rewrite <- S', Rp. reflexivity. }
      assert (Eb : Clean b = render true (y :: ys)) by (unfold Clean; now rewrite R, Sb).
      rewrite Eb in Et. rewrite Ep' in Et. unfold render in Et.
      rewrite !string_app_assoc in Et. cbn [append] in Et. injection Et as Et.
      change (rev ys ++ [y])%list with (rev (y :: ys)) in Et.
      pose proof (rooted_stack_noddot p Rp) as [Np _].
      pose proof (rooted_stack_noddot b R) as [Nb _]. rewrite Sb in Nb.
      destruct (clean_stack p) as [|z zs] eqn:Sp.
      * exfalso. change (String.concat "/" (rev [])) with "" in Et. destruct (String.concat "/" (rev (y :: ys))); discriminate.
      * apply (f_equal split_sep) in Et.
        rewrite split_sep_app_slash, !split_sep_concat in Et.
        -- exists (split_sep t). split; [exact Et|].
           pose proof (rooted_valid_names p Rp) as V. rewrite Sp, Et, forallb_app in V.
           now apply andb_prop in V as [_ V].
        -- intros E. apply (f_equal (@length _)) in E. rewrite length_rev in E. discriminate.
        -- apply has_slash_normal, Forall_rev, Nb.
        -- intros E. apply (f_equal (@length _)) in E. rewrite length_rev in E. discriminate.
        -- apply has_slash_normal, Forall_rev, Np.
  - apply String.eqb_eq in C. exists []. rewrite app_nil_r. split; [|reflexivity].
    rewrite C. now rewrite (proj2 (Clean_idem b)).
Qed.

Lemma containedPath_base_key (b : string) :
  containedPath b "" = Ok (Clean b) /\ containedPath b "." = Ok (Clean b).
Proof.
  destruct (String.eqb_spec b "") as [->|Hb]; [split; reflexivity|].
  unfold containedPath. rewrite !Join2 by exact Hb.
  rewrite !Clean_Clean, !Clean_sep_tail by auto. rewrite String.eqb_refl.
  change (negb true) with false. rewrite !andb_false_r. split; reflexivity.
Qed.

Lemma containedPath_err (b k : string) (e : Error) :
  containedPath b k = Err e -> e = ErrPathEscape k b.
Proof.
  unfold containedPath. destruct (negb _ && negb _); intros H; inversion H; auto.
Qed.

(** ** The tree: what updates and [os.MkdirAll] leave alone *)

Lemma assoc_set_other (x y : string) (v : option Node) (l : list (string * Node)) :
  (x =? y) = false -> assoc y (assoc_set x v l) = assoc y l.
Proof.
  intros Hxy. induction l as [|[z n] l IH]; destruct v as [n'|]; cbn.
  - now rewrite Hxy.
  - reflexivity.
  - destruct (z =? x) eqn:E; cbn.
    + apply String.eqb_eq in E. subst z. now rewrite Hxy.
    + destruct (z =? y); [reflexivity | exact IH].
  - destruct (z =? x) eqn:E; cbn.
    + apply String.eqb_eq in E. subst z. rewrite Hxy. exact IH.
    + destruct (z =? y); [reflexivity | exact IH].
Qed.

Lemma assoc_set_id (x : string) (m : Node) (l : list (string * Node)) :
  assoc x l = Some m -> assoc_set x (Some m) l = l.
Proof.
  induction l as [|[z n] l IH]; cbn; [discriminate|].
  destruct (z =? x); [intros H; now injection H as -> | intros H; now rewrite IH].
Qed.

Lemma update_file (d : list byte) (c : list string) (v : option Node) :
  update (NFile d) c v = NFile d.
Proof. destruct c as [|x [|y c]]; reflexivity. Qed.

Lemma update_dir (ents : list (string * Node)) (c : list string) (v : option Node) :
  exists ents', update (NDir ents) c v = NDir ents'.
Proof.
  destruct c as [|x [|y c]]; cbn; [eauto | eauto|].
  destruct (assoc x ents); eauto.
Qed.

Lemma find_nil_not_file (n : Node) (q : list string) (d : list byte) :
  (exists ents, n = NDir ents) -> find n q = inr (NFile d) -> q <> [].
Proof. intros [ents ->] H ->. discriminate. Qed.

Lemma find_empty_dir (q : list string) (d : list byte) : find (NDir []) q <> inr (NFile d).
Proof. destruct q; discriminate. Qed.

(** Setting or removing the entry at [c] keeps the regular files at
    every name list that does not start with [c]. *)
(** [os.MkdirAll] makes directories only: every regular file is kept,
    and none is added, whether it succeeds or not. *)
(** [os.MkdirAll] keeps every directory a directory. *)
Lemma mkdirs_keeps_dir (w : World) (c : list string) :
  forall pre n n' r q e, mkdirs w pre n c = (n', r) -> find n q = inr (NDir e) ->
  exists e', find n' q = inr (NDir e').
Proof.
  induction c as [|x c IH]; intros pre n n' r q e H Hq.
  - cbn in H. injection H as <- _. eauto.
  - destruct n as [d0|ents]; cbn in H; [injection H as <- _; eauto|].
    destruct (assoc x ents) as [[d1|m]|] eqn:Ea.
    + injection H as <- _. eauto.
    + destruct (mkdirs w (pre ++ [x]) (NDir m) c) as [m' r'] eqn:Hm.
      injection H as <- _. destruct q as [|y q]; [cbn; eauto|].
      cbn [find] in Hq |- *. destruct (x =? y) eqn:E.
      * apply String.eqb_eq in E. subst y. rewrite assoc_set_same.
        rewrite Ea in Hq. exact (IH _ _ _ _ q e Hm Hq).
      * rewrite assoc_set_other by exact E. eauto.
    + destruct (w_fault w OpMkdir (pre ++ [x])); [injection H as <- _; eauto|].
      destruct (mkdirs w (pre ++ [x]) (NDir []) c) as [m' r'] eqn:Hm.
      injection H as <- _. destruct q as [|y q]; [cbn; eauto|].
      cbn [find] in Hq |- *. destruct (x =? y) eqn:E.
      * apply String.eqb_eq in E. subst y. rewrite Ea in Hq. discriminate.
      * rewrite assoc_set_other by exact E. eauto.
Qed.

(** A successful [os.MkdirAll] of a non-empty name list leaves a
    directory there. *)
Lemma mkdirs_ok_dir (w : World) (c : list string) :
  forall pre n n', mkdirs w pre n c = (n', None) -> c <> [] ->
  exists e, find n' c = inr (NDir e).
Proof.
  induction c as [|x c IH]; intros pre n n' H Hne; [contradiction|].
  destruct n as [d0|ents]; cbn in H; [discriminate|].
  destruct (assoc x ents) as [[d1|m]|] eqn:Ea; [discriminate| |].
  - destruct (mkdirs w (pre ++ [x]) (NDir m) c) as [m' r'] eqn:Hm.
    injection H as <- ->. cbn [find]. rewrite assoc_set_same.
    destruct c as [|y c]; [cbn in Hm; injection Hm as <-; cbn; eauto|].
    exact (IH _ _ _ Hm ltac:(discriminate)).
  - destruct (w_fault w OpMkdir (pre ++ [x])); [discriminate|].
    destruct (mkdirs w (pre ++ [x]) (NDir []) c) as [m' r'] eqn:Hm.
    injection H as <- ->. cbn [find]. rewrite assoc_set_same.
    destruct c as [|y c]; [cbn in Hm; injection Hm as <-; cbn; eauto|].
    exact (IH _ _ _ Hm ltac:(discriminate)).
Qed.

(** A successful [os.MkdirAll] changes nothing at the names that are not
    on its way. *)
Lemma mkdirs_frame (w : World) (c : list string) :
  forall pre n n' q, mkdirs w pre n c = (n', None) -> is_prefix_list q c = false ->
  find n' q = find n q.
Proof.
  induction c as [|x c IH]; intros pre n n' q H Hq.
  - cbn in H. now injection H as <-.
  - destruct n as [d0|ents]; cbn in H; [discriminate|].
    destruct q as [|y q]; [discriminate|]. cbn [is_prefix_list] in Hq.
    destruct (assoc x ents) as [[d1|m]|] eqn:Ea; [discriminate| |].
    + destruct (mkdirs w (pre ++ [x]) (NDir m) c) as [m' r'] eqn:Hm.
      injection H as <- ->. cbn [find]. destruct (x =? y) eqn:E.
      * apply String.eqb_eq in E. subst y. rewrite String.eqb_refl in Hq.
        rewrite assoc_set_same, Ea. exact (IH _ _ _ q Hm Hq).
      * now rewrite assoc_set_other.
    + destruct (w_fault w OpMkdir (pre ++ [x])); [discriminate|].
      destruct (mkdirs w (pre ++ [x]) (NDir []) c) as [m' r'] eqn:Hm.
      injection H as <- ->. cbn [find]. destruct (x =? y) eqn:E.
      * apply String.eqb_eq in E. subst y. rewrite String.eqb_refl in Hq.
        rewrite assoc_set_same, Ea, (IH _ _ _ q Hm Hq).
        destruct q as [|z q]; [discriminate | reflexivity].
      * now rewrite assoc_set_other.
Qed.

(** [os.MkdirAll] of an existing directory changes nothing. *)
Lemma mkdirs_existing (w : World) (c : list string) :
  forall pre n e, find n c = inr (NDir e) -> mkdirs w pre n c = (n, None).
Proof.
  induction c as [|x c IH]; intros pre n e H; [reflexivity|].
  destruct n as [d0|ents]; [discriminate|]. cbn in H |- *.
  destruct (assoc x ents) as [m|] eqn:Ea; [|discriminate].
  destruct m as [d1|m].
  - destruct c; discriminate.
  - rewrite (IH _ _ _ H). rewrite (assoc_set_id x (NDir m) ents Ea). reflexivity.
Qed.

(** With no host failure, [os.MkdirAll] succeeds when no regular file is on
    the way. *)
Lemma mkdirs_succeeds (w : World) (c : list string) :
  (forall o q, w_fault w o q = None) ->
  forall pre ents, no_file_on (NDir ents) c = true ->
  exists n' e, mkdirs w pre (NDir ents) c = (n', None) /\ find n' c = inr (NDir e).
Proof.
  intros Hf. induction c as [|x c IH]; intros pre ents H; [cbn; eauto|].
  cbn [no_file_on] in H. cbn [mkdirs].
  destruct (assoc x ents) as [[d1|m]|] eqn:Ea; [discriminate| |].
  - destruct (IH (pre ++ [x])%list m H) as (m' & e & Hm & He). rewrite Hm.
    exists (NDir (assoc_set x (Some m') ents)), e. split; [reflexivity|].
    cbn [find]. now rewrite assoc_set_same.
  - rewrite Hf.
    assert (H0 : no_file_on (NDir []) c = true) by (destruct c; reflexivity).
    destruct (IH (pre ++ [x])%list [] H0) as (m' & e & Hm & He). rewrite Hm.
    exists (NDir (assoc_set x (Some m') ents)), e. split; [reflexivity|].
    cbn [find]. now rewrite assoc_set_same.
Qed.

Lemma find_missing_app (c : list string) :
  forall n r, find n c = inl ENOENT -> find n (c ++ r) = inl ENOENT.
Proof.
  induction c as [|x c IH]; intros n r H; [discriminate|].
  destruct n as [d|ents]; [discriminate|]. cbn in H |- *.
  destruct (assoc x ents); [now apply IH | reflexivity].
Qed.

Lemma find_parent_dir (c : list string) :
  forall n m, find n c = inr m -> c <> [] ->
  exists ents, find n (removelast c) = inr (NDir ents).
Proof.
  induction c as [|x c IH]; intros n m H Hne; [contradiction|].
  destruct n as [d|ents]; [discriminate|].
  destruct c as [|y c]; [cbn; eauto|].
  change (removelast (x :: y :: c)) with (x :: removelast (y :: c)).
  cbn [find] in H |- *. destruct (assoc x ents) as [ch|]; [|discriminate].
  exact (IH ch m H ltac:(discriminate)).
Qed.

Lemma is_prefix_list_ex (a b : list string) :
  is_prefix_list a b = true -> exists r, b = (a ++ r)%list.
Proof.
  revert b. induction a as [|x a IH]; intros b H; [now exists b|].
  destruct b as [|y b]; [discriminate|]. cbn in H. apply andb_prop in H as [E H].
  apply String.eqb_eq in E. subst y. destruct (IH b H) as [r ->]. now exists r.
Qed.

Lemma is_prefix_list_app_l (a r q : list string) :
  is_prefix_list (a ++ r) q = true -> is_prefix_list a q = true.
Proof.
  revert q. induction a as [|x a IH]; intros q H; [reflexivity|].
  destruct q as [|y q]; [discriminate|]. cbn in H |- *.
  apply andb_prop in H as [E H]. rewrite E. now apply IH.
Qed.

Lemma is_prefix_list_refl (a : list string) : is_prefix_list a a = true.
Proof. induction a as [|x a IH]; [reflexivity|]. cbn. now rewrite String.eqb_refl. Qed.

Lemma is_prefix_list_app (a r : list string) : is_prefix_list a (a ++ r) = true.
Proof. induction a as [|x a IH]; [reflexivity|]. cbn. now rewrite String.eqb_refl. Qed.

Lemma with_root_same (w : World) : with_root w (w_root w) = w.
Proof. destruct w; reflexivity. Qed.

(** ** DeleteFile *)

Lemma os_RemoveAll_ok (p : string) (w w' : World) :
  p <> "" -> os_RemoveAll p w = (w', Ok tt) ->
  w_cwd w' = w_cwd w /\ w_fault w' = w_fault w /\ endsWithDot p = false
  /\ fault w OpRemoveAll p = None
  /\ forall r, find (w_root w') (abs_comps w p ++ r)%list = inl ENOENT.
Proof.
  intros Hp. unfold os_RemoveAll.
  destruct (p =? "") eqn:E1; [apply String.eqb_eq in E1; contradiction|].
  destruct (endsWithDot p); [discriminate|].
  destruct (fault w OpRemoveAll p) eqn:Ef; [discriminate|].
  unfold os_find. rewrite E1.
  destruct (find (w_root w) (abs_comps w p)) as [[]|n] eqn:Efd; try discriminate.
  - intros H. injection H as <-. repeat split; auto.
    intros r. now apply find_missing_app.
  - destruct (abs_comps w p) as [|a c] eqn:Ec; [discriminate|].
    intros H. injection H as <-. repeat split; auto.
    intros r. apply find_missing_app. cbn [set_node with_root w_root]. rewrite Ec.
    destruct (find_parent_dir (a :: c) (w_root w) n Efd ltac:(discriminate)) as [ents He].
    exact (find_update_same (a :: c) (w_root w) None ents He ltac:(discriminate)).
Qed.

Lemma DeleteFile_path (l : LocalConfig) (key p : string) (w : World) :
  containedPath (Path l) key = Ok p -> DeleteFile l key w = os_RemoveAll p w.
Proof. intros H. unfold DeleteFile, bind, lift. now rewrite H. Qed.

(** After a successful DeleteFile nothing is left at the key or below it. *)
Lemma DeleteFile_gone (l : LocalConfig) (key p : string) (w w' : World) :
  containedPath (Path l) key = Ok p -> DeleteFile l key w = (w', Ok tt) ->
  forall key' p', containedPath (Path l) key' = Ok p' ->
  is_prefix_list (abs_comps w p) (abs_comps w p') = true ->
  fault w OpStat p' = None ->
  StatFile l key' w' = (w', Err ErrNotFound).
Proof.
  intros Hc H key' p' Hc' Hpre HS.
  rewrite (DeleteFile_path l key p w Hc) in H.
  destruct (os_RemoveAll_ok p w w' (containedPath_nonempty _ _ _ Hc) H)
    as (Ec & Ef & _ & _ & Hgone).
  apply is_prefix_list_ex in Hpre as [r Er].
  rewrite (StatFile_path l key' p' w' Hc'). unfold StatFileAbsolute, os_Stat.
  rewrite (fault_same w w' OpStat p' Ec Ef), HS. unfold os_find.
  destruct (p' =? ""); [reflexivity|].
  rewrite (abs_comps_cwd w w' p' Ec), Er, Hgone. reflexivity.
Qed.

(** ** filepath.Dir of a cleaned absolute path *)

Lemma valid_stack_tl_rooted (s : string) (st : list string) :
  valid_stack true (s :: st) -> valid_stack true st.
Proof.
  intros (Hn & names & k & E & Hd & Hk). rewrite (Hk eq_refl), app_nil_r in E. subst names.
  inversion Hn; inversion Hd; subst. split; [assumption|].
  exists st, 0. rewrite app_nil_r. auto.
Qed.

Lemma dir_segs (L : list string) (a : string) :
  match ("" :: (L ++ [a]))%list with
  | [_] => ""
  | _ => String.concat "/" (removelast ("" :: (L ++ [a]))%list) ++ "/"
  end = String.concat "/" ("" :: L) ++ "/".
Proof.
  destruct L as [|x L]; [reflexivity|].
  replace (removelast ("" :: (x :: L) ++ [a]))%list with ("" :: x :: L)
    by (rewrite app_comm_cons, removelast_last; reflexivity).
  reflexivity.
Qed.

Lemma concat_cons_ne (sep x : string) (L : list string) :
  L <> [] -> String.concat sep (x :: L) = x ++ sep ++ String.concat sep L.
Proof. destruct L; [contradiction | reflexivity]. Qed.

Lemma Dir_render (st : list string) :
  valid_stack true st -> Dir (render true st) = render true (tl st).
Proof.
  intros Hv. destruct st as [|s st]; [reflexivity|].
  pose proof (valid_stack_tl_rooted s st Hv) as Hv'.
  unfold Dir. rewrite (split_sep_render_cons true (s :: st) Hv ltac:(discriminate)).
  cbn [rev tl]. rewrite dir_segs.
  destruct st as [|s' st']; [reflexivity|].
  rewrite concat_cons_ne
    by (intros E; apply (f_equal (@length _)) in E; rewrite length_rev in E; discriminate).
  change ("" ++ "/" ++ String.concat "/" (rev (s' :: st')))
    with (render true (s' :: st')).
  change "/" with (String "/" "").
  rewrite Clean_sep_tail by (auto; discriminate).
  unfold Clean. destruct (render_facts true _ Hv') as [R S]. now rewrite R, S.
Qed.

Lemma Dir_abs (w : World) (x : string) :
  is_rooted x = true ->
  abs_comps w (Dir (Clean x)) = removelast (abs_comps w (Clean x)).
Proof.
  intros R. pose proof (clean_stack_valid x) as Hv. rewrite R in Hv.
  assert (EC : Clean x = render true (clean_stack x)) by (unfold Clean; now rewrite R).
  rewrite EC, (Dir_render _ Hv).
  destruct (clean_stack x) as [|s st] eqn:Es; [reflexivity|].
  pose proof (valid_stack_tl_rooted s st Hv) as Hv'. cbn [tl].
  rewrite !abs_comps_rooted by reflexivity.
  rewrite (proj2 (render_facts true _ Hv')), (proj2 (render_facts true _ Hv)).
  cbn [rev]. now rewrite removelast_last.
Qed.

Lemma is_prefix_list_length (a b : list string) :
  is_prefix_list a b = true -> length a <= length b.
Proof. intros H. destruct (is_prefix_list_ex a b H) as [r ->]. rewrite length_app. lia. Qed.

Lemma not_prefix_removelast (c : list string) :
  c <> [] -> is_prefix_list c (removelast c) = false.
Proof.
  intros Hne. destruct (is_prefix_list c (removelast c)) eqn:E; [|reflexivity].
  apply is_prefix_list_length in E.
  destruct (exists_last Hne) as (c' & a & ->). rewrite removelast_last, length_app in E.
  cbn in E. lia.
Qed.

Lemma os_find_rooted (w : World) (p : string) :
  is_rooted p = true -> os_find w p = find (w_root w) (abs_comps w p).
Proof. intros R. unfold os_find. destruct p; [discriminate | reflexivity]. Qed.

(** ** PutFile *)

Lemma PutFile_rooted (l : LocalConfig) (key p : string) :
  is_rooted (Path l) = true -> containedPath (Path l) key = Ok p ->
  exists y, p = Clean y /\ is_rooted y = true /\ is_rooted p = true.
Proof.
  intros R H. destruct (containedPath_rooted _ _ _ H R) as [Ep Rp].
  exists (Path l ++ String "/" key). split; [exact Ep|]. split; [|exact Rp].
  rewrite is_rooted_app; [exact R | intros E; rewrite E in R; discriminate].
Qed.

Lemma put_create_ok (p : string) (w : World) (n' : Node) (ents : list (string * Node)) :
  (forall o c, w_fault w o c = None) -> is_rooted p = true -> abs_comps w p <> [] ->
  find n' (removelast (abs_comps w p)) = inr (NDir ents) ->
  (forall e, find n' (abs_comps w p) <> inr (NDir e)) ->
  os_Create p (with_root w n') = (set_node (with_root w n') p (Some (NFile [])), Ok tt)
  /\ file_slot (with_root w n') p.
Proof.
  intros Hf Rp Hne Hpar Hnd.
  assert (Hp : p <> "") by (intros ->; discriminate).
  assert (Ec : abs_comps (with_root w n') p = abs_comps w p) by reflexivity.
  split.
  - unfold os_Create. destruct (p =? "") eqn:E; [apply String.eqb_eq in E; contradiction|].
    unfold fault. cbn [w_fault with_root]. rewrite Hf, Ec.
    destruct (abs_comps w p) as [|a c] eqn:Eac; [contradiction|].
    cbn [w_root with_root]. rewrite Hpar.
    destruct (find n' (a :: c)) as [e|[d|e]] eqn:Ef; [reflexivity | reflexivity|].
    exfalso. exact (Hnd e eq_refl).
  - split; [exact Hp|]. rewrite Ec. split; [exact Hne|]. exists ents. exact Hpar.
Qed.

(** With no host failure, PutFile of a byte reader makes the missing
    directories on the way and leaves exactly the bytes at the key. *)
Lemma put_succeeds (l : LocalConfig) (key p : string) (bs : list byte) (sz : Z) (w : World) :
  (forall o c, w_fault w o c = None) -> (exists ents, w_root w = NDir ents) ->
  is_rooted (Path l) = true -> containedPath (Path l) key = Ok p ->
  no_file_on (w_root w) (removelast (abs_comps w p)) = true ->
  (forall ents, os_find w p <> inr (NDir ents)) ->
  exists w', PutFile l key (RBytes bs None) sz w = (w', Ok tt) /\ os_find w' p = inr (NFile bs).
Proof.
  intros Hf [ents Hroot] R Hc Hnf Hnd.
  destruct (PutFile_rooted l key p R Hc) as (y & Ep & Ry & Rp).
  set (c := abs_comps w p) in *.
  assert (Hne : c <> []).
  { intros E. apply (Hnd ents). rewrite (os_find_rooted w p Rp). fold c. rewrite E, Hroot.
    reflexivity. }
  assert (HD : abs_comps w (Dir p) = removelast c) by (unfold c; rewrite Ep; apply Dir_abs; exact Ry).
  rewrite Hroot in Hnf.
  destruct (mkdirs_succeeds w (removelast c) Hf [] ents Hnf) as (n' & e & Hm & He).
  assert (H1 : os_MkdirAll (Dir p) w = (with_root w n', Ok tt))
    by (unfold os_MkdirAll; rewrite HD, Hroot, Hm; reflexivity).
  assert (Hfr : find n' c = find (w_root w) c)
    by (rewrite Hroot; exact (mkdirs_frame w _ [] _ n' c Hm (not_prefix_removelast c Hne))).
  assert (Hnd' : forall e0, find n' c <> inr (NDir e0)).
  { rewrite Hfr. intros e0 E. apply (Hnd e0). rewrite (os_find_rooted w p Rp). exact E. }
  destruct (put_create_ok p w n' e Hf Rp Hne He Hnd') as [H2 Hs].
  destruct (file_slot_set_node (with_root w n') p (Some (NFile [])) Hs) as [Hs2 Hf2].
  rewrite (PutFile_path l key p _ sz w Hc), (PutFileAbsolute_copy p _ sz w _ _ H1 H2).
  unfold io_Copy. cbn [read_all].
  destruct bs as [|b bs].
  - eexists. split; [reflexivity | exact Hf2].
  - set (w2 := set_node (with_root w n') p (Some (NFile []))) in *.
    assert (Hw : fault w2 OpWrite p = None) by exact (Hf _ _).
    rewrite Hw, Hf2.
    destruct (file_slot_set_node w2 p (Some (NFile ([] ++ b :: bs)%list)) Hs2) as [_ Hf3].
    eexists. split; [reflexivity | exact Hf3].
Qed.

Lemma find_parent_or_root (n : Node) (c : list string) (ents : list (string * Node)) :
  find n c = inr (NDir ents) -> exists e, find n (removelast c) = inr (NDir e).
Proof.
  intros H. destruct c as [|a c]; [exists ents; exact H|].
  exact (find_parent_dir (a :: c) n _ H ltac:(discriminate)).
Qed.

Lemma put_onto_dir (l : LocalConfig) (key p : string) (r : Reader) (sz : Z) (w : World)
  (ents : list (string * Node)) :
  (forall o c, w_fault w o c = None) -> is_rooted (Path l) = true ->
  containedPath (Path l) key = Ok p -> os_find w p = inr (NDir ents) ->
  PutFile l key r sz w = (w, Err (ErrPath "open" p EISDIR)).
Proof.
  intros Hf R Hc Hd.
  destruct (PutFile_rooted l key p R Hc) as (y & Ep & Ry & Rp).
  rewrite (os_find_rooted w p Rp) in Hd.
  destruct (find_parent_or_root _ _ _ Hd) as [e Hpar].
  assert (H1 : os_MkdirAll (Dir p) w = (w, Ok tt)).
  { unfold os_MkdirAll. rewrite Ep, (Dir_abs w y Ry), <- Ep.
    rewrite (mkdirs_existing w _ [] _ e Hpar). now rewrite with_root_same. }
  assert (H2 : os_Create p w = (w, Err (ErrPath "open" p EISDIR))).
  { unfold os_Create. cbv zeta.
    destruct (p =? "") eqn:E; [apply String.eqb_eq in E; rewrite E in Rp; discriminate|].
    unfold fault. rewrite Hf.
    destruct (abs_comps w p) as [|a c]; [reflexivity|].
    rewrite Hpar, Hd. reflexivity. }
  rewrite (PutFile_path l key p r sz w Hc).
  unfold PutFileAbsolute, bind, wrap_err. cbv beta zeta.
  rewrite H1. cbv beta iota. rewrite H2. reflexivity.
Qed.

(** ** CopyObject onto its own source *)

Lemma copy_same_file (l : LocalConfig) (srcSize : Z) (srcBucket srcKey dstKey : string)
  (w : World) (d : list byte) :
  (forall o c, w_fault w o c = None) -> (exists ents, w_root w = NDir ents) ->
  is_rooted (ObjectDiskPath l) = true ->
  Join [ObjectDiskPath l; dstKey] = Join [Path l; srcKey] ->
  os_find w (Join [Path l; srcKey]) = inr (NFile d) ->
  exists w', CopyObject l srcSize srcBucket srcKey dstKey w = (w', Ok 0%Z)
             /\ os_find w' (Join [Path l; srcKey]) = inr (NFile []).
Proof.
  intros Hf [ents Hroot] R Hsame Hfile.
  assert (Hb : ObjectDiskPath l <> "") by (intros E; rewrite E in R; discriminate).
  set (y := (ObjectDiskPath l ++ String "/" dstKey)).
  assert (Ry : is_rooted y = true) by (unfold y; rewrite is_rooted_app; assumption).
  assert (Eq : Join [ObjectDiskPath l; dstKey] = Clean y) by (apply Join2; exact Hb).
  rewrite (CopyObject_after_mkdir l srcSize srcBucket srcKey dstKey w w).
  - rewrite Hsame in Eq |- *. set (q := Join [Path l; srcKey]) in *.
    assert (Rq : is_rooted q = true) by (rewrite Eq, (proj1 (Clean_idem y)); exact Ry).
    assert (Hq : q <> "") by (intros E; rewrite E in Rq; discriminate).
    rewrite (os_find_rooted w q Rq) in Hfile.
    assert (Hne : abs_comps w q <> []) by (intros E; rewrite E, Hroot in Hfile; discriminate).
    destruct (find_parent_dir _ _ _ Hfile Hne) as [e Hpar].
    assert (HL : os_Link q q w = (w, Err (ErrPath "link" q EEXIST))).
    { unfold os_Link. destruct (q =? "") eqn:E; [apply String.eqb_eq in E; contradiction|].
      unfold fault. rewrite Hf, (os_find_rooted w q Rq), Hfile. reflexivity. }
    rewrite HL. unfold bind.
    assert (HO : os_Open q w = (w, Ok (mkHandle q))).
    { unfold os_Open, fault. rewrite Hf, (os_find_rooted w q Rq), Hfile. reflexivity. }
    rewrite HO.
    assert (Hnd : forall e0, find (w_root w) (abs_comps w q) <> inr (NDir e0))
      by (intros e0; rewrite Hfile; discriminate).
    destruct (put_create_ok q w (w_root w) e Hf Rq Hne Hpar Hnd) as [HC Hs].
    rewrite with_root_same in HC, Hs. rewrite HC.
    destruct (file_slot_set_node w q (Some (NFile [])) Hs) as [_ Hf2].
    unfold io_Copy. cbn [read_all h_path].
    assert (Hr : fault (set_node w q (Some (NFile []))) OpRead q = None) by exact (Hf _ _).
    rewrite Hr, Hf2. eexists. split; [reflexivity | exact Hf2].
  - rewrite Eq. unfold os_MkdirAll. rewrite (Dir_abs w y Ry), <- Eq, Hsame.
    assert (Rq : is_rooted (Join [Path l; srcKey]) = true)
      by (rewrite <- Hsame, Eq, (proj1 (Clean_idem y)); exact Ry).
    rewrite (os_find_rooted w _ Rq) in Hfile.
    assert (Hne : abs_comps w (Join [Path l; srcKey]) <> [])
      by (intros E; rewrite E, Hroot in Hfile; discriminate).
    destruct (find_parent_dir _ _ _ Hfile Hne) as [e Hpar].
    rewrite (mkdirs_existing w _ [] _ e Hpar). now rewrite with_root_same.
Qed.

(** ** The non-recursive Walk *)

Lemma collect_log (f : localFile) (w : World) (l : list (Z * string)) :
  collect f (log_app w l) = (log_app w (l ++ [(lf_size f, lf_name f)]), Ok tt).
Proof. unfold collect, log_app. cbn. now rewrite app_assoc. Qed.

Lemma walk_entries_collect (p : string) (w : World) (L : list (string * Node)) :
  (forall o c, w_fault w o c = None) ->
  (forall e, In e L -> os_find w (Join [p; fst e]) = inr (snd e)) ->
  forall l, walk_entries p collect L (log_app w l)
            = (log_app w (l ++ map (fun e => (fi_size (info_of (snd e)), fst e)) L), Ok tt).
Proof.
  intros Hf. induction L as [|[x n] L IH]; intros HL l.
  - cbn. now rewrite app_nil_r.
  - cbn [walk_entries map fst snd]. unfold bind.
    rewrite (os_Lstat_found w (Join [p; x]) n l Hf (HL (x, n) (or_introl eq_refl))).
    rewrite collect_log. cbn [lf_size lf_name].
    rewrite IH by (intros e He; apply HL; now right).
    now rewrite <- app_assoc.
Qed.

Lemma Rel_self (p : string) : p <> "" -> Rel p p = Some ".".
Proof. intros H. exact (Rel_below p p [] (below_self p H)). Qed.

Lemma os_find_nonempty (w : World) (p : string) (n : Node) :
  os_find w p = inr n -> p <> "".
Proof. unfold os_find. intros H E. rewrite E in H. discriminate. Qed.

(** ** os.MkdirAll and Connect *)

Lemma MkdirAll_keeps_dir (p q : string) (w w' : World) (r : result unit)
  (e : list (string * Node)) :
  os_MkdirAll p w = (w', r) -> os_find w q = inr (NDir e) ->
  exists e', os_find w' q = inr (NDir e').
Proof.
  unfold os_MkdirAll. destruct (mkdirs w [] (w_root w) (abs_comps w p)) as [n' o] eqn:Em.
  intros H. injection H as <- _. unfold os_find. destruct (q =? ""); [discriminate|].
  change (abs_comps (with_root w n') q) with (abs_comps w q). cbn [with_root w_root].
  intros Hq. exact (mkdirs_keeps_dir w _ [] _ n' o _ e Em Hq).
Qed.

Lemma MkdirAll_keeps_root (p : string) (w w' : World) (r : result unit) :
  os_MkdirAll p w = (w', r) -> (exists e, w_root w = NDir e) -> exists e, w_root w' = NDir e.
Proof.
  unfold os_MkdirAll. destruct (mkdirs w [] (w_root w) (abs_comps w p)) as [n' o] eqn:Em.
  intros H [e He]. injection H as <- _. cbn [with_root w_root].
  rewrite He in Em. destruct (mkdirs_keeps_dir w _ [] _ n' o [] e Em eq_refl) as [e' H'].
  cbn in H'. injection H' as ->. now exists e'.
Qed.

Lemma MkdirAll_ok_dir (p : string) (w w' : World) :
  p <> "" -> (exists e, w_root w = NDir e) -> os_MkdirAll p w = (w', Ok tt) ->
  exists e, os_find w' p = inr (NDir e).
Proof.
  intros Hp [e0 He]. unfold os_MkdirAll.
  destruct (mkdirs w [] (w_root w) (abs_comps w p)) as [n' o] eqn:Em.
  intros H. injection H as <- Ho. destruct o; [discriminate|].
  unfold os_find. destruct (p =? "") eqn:E; [apply String.eqb_eq in E; contradiction|].
  change (abs_comps (with_root w n') p) with (abs_comps w p). cbn [with_root w_root].
  destruct (abs_comps w p) as [|a c] eqn:Ec.
  - rewrite He in Em. cbn in Em. injection Em as <-. now exists e0.
  - exact (mkdirs_ok_dir w (a :: c) [] _ n' Em ltac:(discriminate)).
Qed.

Lemma MkdirAll_existing (p : string) (w : World) (e : list (string * Node)) :
  os_find w p = inr (NDir e) -> os_MkdirAll p w = (w, Ok tt).
Proof.
  unfold os_find, os_MkdirAll. destruct (p =? ""); [discriminate|].
  intros H. rewrite (mkdirs_existing w _ [] _ e H). now rewrite with_root_same.
Qed.

Lemma Connect_ok (l : LocalConfig) (w w' : World) :
  Connect l w = (w', Ok tt) ->
  Path l <> "" /\ exists w1, os_MkdirAll (Path l) w = (w1, Ok tt)
  /\ (if ObjectDiskPath l =? "" then w' = w1 else os_MkdirAll (ObjectDiskPath l) w1 = (w', Ok tt)).
Proof.
  unfold Connect, bind, wrap_err, ret, fail.
  destruct (Path l =? "") eqn:E; [discriminate|]. apply String.eqb_neq in E.
  destruct (os_MkdirAll (Path l) w) as [w1 [[]|e1]] eqn:H1; [|discriminate].
  intros H. split; [exact E|]. exists w1. split; [reflexivity|].
  destruct (ObjectDiskPath l =? ""); cbn [negb] in H.
  - now injection H as <-.
  - destruct (os_MkdirAll (ObjectDiskPath l) w1) as [w2 [[]|e2]]; [|discriminate].
    now injection H as <-.
Qed.

(** ** A cancelled context in the middle of a batch *)

Lemma DeleteKeysBatch_world (l : LocalConfig) (ctx : Context) (keys : list string) (w : World) :
  fst (DeleteKeysBatch l ctx keys w) = fst (deleteKeysBatchInternal ctx (Path l) keys w)
  /\ fst (DeleteKeysFromObjectDiskBackupBatch l ctx keys w)
     = fst (deleteKeysBatchInternal ctx (ObjectDiskPath l) keys w).
Proof. destruct keys; split; reflexivity. Qed.

Lemma Connect_dirs (l : LocalConfig) (w w' : World) :
  (exists e, w_root w = NDir e) -> Connect l w = (w', Ok tt) ->
  Path l <> "" /\ (exists e, os_find w' (Path l) = inr (NDir e))
  /\ (ObjectDiskPath l <> "" -> exists e, os_find w' (ObjectDiskPath l) = inr (NDir e)).
Proof.
  intros Hr H. destruct (Connect_ok l w w' H) as (Hp & w1 & H1 & H2).
  destruct (MkdirAll_ok_dir (Path l) w w1 Hp Hr H1) as [e1 He1].
  split; [exact Hp|].
  destruct (ObjectDiskPath l =? "") eqn:Eo.
  - subst w'. split; [now exists e1|]. intros Hne. apply String.eqb_eq in Eo. contradiction.
  - apply String.eqb_neq in Eo. split.
    + exact (MkdirAll_keeps_dir _ _ w1 w' _ e1 H2 He1).
    + intros _. exact (MkdirAll_ok_dir _ w1 w' Eo (MkdirAll_keeps_root _ w w1 _ H1 Hr) H2).
Qed.

(** ** Extra properties of the backend *)

(** X1: the empty key and the key "." both name the base directory itself:
    the guard accepts them and resolves them to the cleaned base. *)
Theorem X1_containedPath_base_key (b : string) :
  containedPath b "" = Ok (Clean b) /\ containedPath b "." = Ok (Clean b).
Proof. exact (containedPath_base_key b). Qed.

(** X2: for an absolute base, a path the guard accepts lies in the file tree
    at or below the base: its components are those of the base followed by
    ordinary names (no "." or ".."). *)
Theorem X2_containedPath_stays_below (w : World) (b k p : string) :
  containedPath b k = Ok p -> is_rooted b = true ->
  exists rest, abs_comps w p = (abs_comps w b ++ rest)%list /\ forallb valid_name rest = true.
Proof. exact (containedPath_within w b k p). Qed.

Lemma X2_witness :
  exists rest, abs_comps demo_world "/data/remote/b1/meta.json"
               = (abs_comps demo_world "/data/remote" ++ rest)%list
               /\ forallb valid_name rest = true.
Proof.
  apply (X2_containedPath_stays_below demo_world "/data/remote" "x/../b1/./meta.json");
    vm_compute; reflexivity.
Defined.

(** X3: DeleteFile is idempotent: once it has succeeded for a key, deleting
    the same key again succeeds and changes nothing. *)
Theorem X3_DeleteFile_idempotent (l : LocalConfig) (key : string) (w w' : World) :
  DeleteFile l key w = (w', Ok tt) -> DeleteFile l key w' = (w', Ok tt).
Proof.
  intros H. destruct (containedPath (Path l) key) as [p|e] eqn:Hc.
  2: { unfold DeleteFile, bind, lift in H. rewrite Hc in H. discriminate. }
  rewrite (DeleteFile_path l key p w Hc) in H. rewrite (DeleteFile_path l key p w' Hc).
  destruct (os_RemoveAll_ok p w w' (containedPath_nonempty _ _ _ Hc) H)
    as (Ec & Ef & Ed & Hfa & Hg).
  unfold os_RemoveAll. cbv beta.
  destruct (p =? "") eqn:E; [reflexivity|]. rewrite Ed.
  rewrite (fault_same w w' OpRemoveAll p Ec Ef), Hfa. unfold os_find. rewrite E.
  rewrite (abs_comps_cwd w w' p Ec). specialize (Hg []). rewrite app_nil_r in Hg.
  rewrite Hg. reflexivity.
Qed.

Lemma X3_witness :
  DeleteFile demo_cfg "b1" (fst (DeleteFile demo_cfg "b1" demo_world))
  = (fst (DeleteFile demo_cfg "b1" demo_world), Ok tt).
Proof. apply (X3_DeleteFile_idempotent demo_cfg "b1" demo_world). vm_compute. reflexivity. Defined.

(** X4: after DeleteFile succeeds for a key, StatFile reports NotFound for
    that key and for every key the guard resolves below it. *)
Theorem X4_DeleteFile_removes_subtree (l : LocalConfig) (key p : string) (w w' : World)
  (key' p' : string) :
  containedPath (Path l) key = Ok p -> DeleteFile l key w = (w', Ok tt) ->
  containedPath (Path l) key' = Ok p' ->
  is_prefix_list (abs_comps w p) (abs_comps w p') = true ->
  fault w OpStat p' = None ->
  StatFile l key' w' = (w', Err ErrNotFound).
Proof. intros Hc H Hc' Hpre HS. exact (DeleteFile_gone l key p w w' Hc H key' p' Hc' Hpre HS). Qed.

Lemma X4_witness :
  StatFile demo_cfg "b1/sub/part" (fst (DeleteFile demo_cfg "b1" demo_world))
  = (fst (DeleteFile demo_cfg "b1" demo_world), Err ErrNotFound).
Proof.
  apply (X4_DeleteFile_removes_subtree demo_cfg "b1" "/data/remote/b1" demo_world _
           "b1/sub/part" "/data/remote/b1/sub/part"); vm_compute; reflexivity.
Defined.

(** X5: DeleteFile with the empty key deletes the whole base directory: for
    an absolute base, afterwards every key either is refused by the guard or
    is reported NotFound by StatFile. *)
Theorem X5_DeleteFile_empty_key_empties_base (l : LocalConfig) (w w' : World) :
  is_rooted (Path l) = true -> (forall c, w_fault w OpStat c = None) ->
  DeleteFile l "" w = (w', Ok tt) ->
  forall key', StatFile l key' w' = (w', Err ErrNotFound)
               \/ StatFile l key' w' = (w', Err (ErrPathEscape key' (Path l))).
Proof.
  intros R Hf H key'. destruct (containedPath (Path l) key') as [p'|e] eqn:Hc.
  - left. apply (DeleteFile_gone l "" (Clean (Path l)) w w'
                   (proj1 (containedPath_base_key (Path l))) H key' p' Hc).
    + destruct (containedPath_within w _ _ _ Hc R) as (rest & Er & _).
      rewrite abs_comps_Clean, Er. apply is_prefix_list_app.
    + exact (Hf _).
  - right. rewrite (containedPath_err _ _ _ Hc) in Hc.
    unfold StatFile, bind, lift. rewrite Hc. reflexivity.
Qed.

Lemma X5_witness :
  StatFile demo_cfg "b1/meta.json" (fst (DeleteFile demo_cfg "" demo_world))
  = (fst (DeleteFile demo_cfg "" demo_world), Err ErrNotFound)
  \/ StatFile demo_cfg "b1/meta.json" (fst (DeleteFile demo_cfg "" demo_world))
     = (fst (DeleteFile demo_cfg "" demo_world),
        Err (ErrPathEscape "b1/meta.json" (Path demo_cfg))).
Proof.
  assert (R : is_rooted (Path demo_cfg) = true) by reflexivity.
  assert (Hf : forall c, w_fault demo_world OpStat c = None) by reflexivity.
  assert (H : DeleteFile demo_cfg "" demo_world
              = (fst (DeleteFile demo_cfg "" demo_world), Ok tt)) by (vm_compute; reflexivity).
  exact (X5_DeleteFile_empty_key_empties_base demo_cfg demo_world _ R Hf H "b1/meta.json").
Defined.

(** X8: when the context is found cancelled at the [i]-th key (and not
    before), a batch delete has deleted the first [i] keys exactly as an
    uncancelled batch of those keys would, leaves the others untouched and
    returns the context's error. *)
Theorem X8_batch_cancel_midway (l : LocalConfig) (ctx : Context) (keys : list string)
  (i : nat) (w : World) :
  i < length keys -> (forall j, j < i -> ctx j = false) -> ctx i = true ->
  DeleteKeysBatch l ctx keys w
  = (fst (DeleteKeysBatch l background (firstn i keys) w), Err ErrCtx)
  /\ DeleteKeysFromObjectDiskBackupBatch l ctx keys w
     = (fst (DeleteKeysFromObjectDiskBackupBatch l background (firstn i keys) w), Err ErrCtx).
Proof.
  intros Hi Hj Hc. destruct (DeleteKeysBatch_world l background (firstn i keys) w) as [E1 E2].
  rewrite E1, E2. destruct keys as [|k ks]; [cbn in Hi; lia|].
  cbn [DeleteKeysBatch DeleteKeysFromObjectDiskBackupBatch].
  split; apply batch_cancel; assumption.
Qed.

Lemma X8_witness :
  DeleteKeysBatch demo_cfg (fun j => Nat.leb 1 j) ["b1/meta.json"; "b1/sub"] demo_world
  = (fst (DeleteKeysBatch demo_cfg background ["b1/meta.json"] demo_world), Err ErrCtx).
Proof.
  apply (X8_batch_cancel_midway demo_cfg (fun j => Nat.leb 1 j) ["b1/meta.json"; "b1/sub"] 1
           demo_world).
  - cbn. lia.
  - intros j Hj. destruct j; [reflexivity | lia].
  - reflexivity.
Defined.

(** X9: on a host that refuses nothing, PutFile of a byte reader to a key
    below an absolute base, whose parent chain has no regular file on it
    and which is not an existing directory, succeeds: the missing parent
    directories are made and the file at the key holds exactly the bytes. *)
Theorem X9_PutFile_makes_parents (l : LocalConfig) (key p : string) (bs : list byte) (sz : Z)
  (w : World) :
  (forall o c, w_fault w o c = None) -> (exists ents, w_root w = NDir ents) ->
  is_rooted (Path l) = true -> containedPath (Path l) key = Ok p ->
  no_file_on (w_root w) (removelast (abs_comps w p)) = true ->
  (forall ents, os_find w p <> inr (NDir ents)) ->
  exists w', PutFile l key (RBytes bs None) sz w = (w', Ok tt) /\ os_find w' p = inr (NFile bs).
Proof. exact (put_succeeds l key p bs sz w). Qed.

Lemma X9_witness :
  exists w', PutFile demo_cfg "b2/new/f.bin" (RBytes [Byte.x7a] None) 1 demo_world = (w', Ok tt)
             /\ os_find w' "/data/remote/b2/new/f.bin" = inr (NFile [Byte.x7a]).
Proof.
  apply (X9_PutFile_makes_parents demo_cfg "b2/new/f.bin" "/data/remote/b2/new/f.bin").
  - intros o c. reflexivity.
  - eexists. reflexivity.
  - reflexivity.
  - vm_compute. reflexivity.
  - vm_compute. reflexivity.
  - intros ents. vm_compute. discriminate.
Defined.

(** X10: PutFile to a key that names an existing directory fails with
    EISDIR from the open for writing and leaves the world as it was, the
    directory and its contents included. *)
Theorem X10_PutFile_onto_directory (l : LocalConfig) (key p : string) (r : Reader) (sz : Z)
  (w : World) (ents : list (string * Node)) :
  (forall o c, w_fault w o c = None) -> is_rooted (Path l) = true ->
  containedPath (Path l) key = Ok p -> os_find w p = inr (NDir ents) ->
  PutFile l key r sz w = (w, Err (ErrPath "open" p EISDIR)).
Proof. exact (put_onto_dir l key p r sz w ents). Qed.

Lemma X10_witness :
  PutFile demo_cfg "b1/sub" (RBytes [Byte.x7a] None) 1 demo_world
  = (demo_world, Err (ErrPath "open" "/data/remote/b1/sub" EISDIR)).
Proof.
  apply (X10_PutFile_onto_directory demo_cfg "b1/sub" "/data/remote/b1/sub" _ _ demo_world
           [("part", NFile [Byte.x63])]).
  - intros o c. reflexivity.
  - reflexivity.
  - vm_compute. reflexivity.
  - vm_compute. reflexivity.
Defined.

(** X11: Walk on a prefix that cannot be found hands nothing to the visitor
    and leaves the world as it was: a missing prefix (ENOENT) is a success,
    any other lookup error is returned, from the lstat of filepath.Walk in
    the recursive mode and from the open of os.ReadDir in the flat mode. *)
Theorem X11_Walk_missing_prefix (l : LocalConfig) (remotePath : string) (w : World)
  (e : Errno) :
  fault w OpStat (Join [Path l; remotePath]) = None ->
  fault w OpReadDir (Join [Path l; remotePath]) = None ->
  os_find w (Join [Path l; remotePath]) = inl e ->
  forall recursive process,
  Walk l remotePath recursive process w
  = (w, match e with
        | ENOENT => Ok tt
        | _ => Err (ErrPath (if recursive then "lstat" else "open") (Join [Path l; remotePath]) e)
        end).
Proof.
  intros H1 H2 H3 recursive process. destruct recursive.
  - unfold Walk, WalkAbsolute, filepath_Walk, os_Lstat. cbv beta zeta iota.
    rewrite H1, H3. unfold walk_callback. destruct e; reflexivity.
  - unfold Walk, WalkAbsolute, os_ReadDir. cbv beta zeta iota.
    rewrite H2, H3. destruct e; reflexivity.
Qed.

Lemma X11_witness :
  Walk demo_cfg "nothing/here" true collect demo_world = (demo_world, Ok tt)
  /\ Walk demo_cfg "b1/meta.json/x" false collect demo_world
     = (demo_world, Err (ErrPath "open" "/data/remote/b1/meta.json/x" ENOTDIR)).
Proof.
  split.
  - exact (X11_Walk_missing_prefix demo_cfg "nothing/here" demo_world ENOENT
             eq_refl eq_refl ltac:(vm_compute; reflexivity) true collect).
  - exact (X11_Walk_missing_prefix demo_cfg "b1/meta.json/x" demo_world ENOTDIR
             eq_refl eq_refl ltac:(vm_compute; reflexivity) false collect).
Defined.

(** X12: Walk on a prefix that is a regular file hands nothing to the
    visitor: the recursive mode succeeds (the only path met is the prefix
    itself, which is skipped), the flat mode fails at the open of os.ReadDir
    with ENOTDIR. *)
Theorem X12_Walk_file_prefix (l : LocalConfig) (remotePath : string) (w : World)
  (d : list byte) (process : Visitor) :
  fault w OpStat (Join [Path l; remotePath]) = None ->
  fault w OpReadDir (Join [Path l; remotePath]) = None ->
  os_find w (Join [Path l; remotePath]) = inr (NFile d) ->
  Walk l remotePath true process w = (w, Ok tt)
  /\ Walk l remotePath false process w
     = (w, Err (ErrPath "open" (Join [Path l; remotePath]) ENOTDIR)).
Proof.
  intros H1 H2 H3. pose proof (os_find_nonempty _ _ _ H3) as Hne. split.
  - unfold Walk, WalkAbsolute, filepath_Walk, os_Lstat. cbv beta zeta iota.
    rewrite H1, H3. cbn [fp_walk info_of fi_isdir negb]. unfold walk_callback.
    rewrite (Rel_self _ Hne). reflexivity.
  - unfold Walk, WalkAbsolute, os_ReadDir. cbv beta zeta iota.
    rewrite H2, H3. reflexivity.
Qed.

Lemma X12_witness :
  Walk demo_cfg "b1/meta.json" true collect demo_world = (demo_world, Ok tt)
  /\ Walk demo_cfg "b1/meta.json" false collect demo_world
     = (demo_world, Err (ErrPath "open" (Join [Path demo_cfg; "b1/meta.json"]) ENOTDIR)).
Proof.
  apply (X12_Walk_file_prefix demo_cfg "b1/meta.json" demo_world [Byte.x61; Byte.x62] collect);
    vm_compute; reflexivity.
Defined.

(** X13: the flat Walk (recursive = false) of a directory of a well-formed
    tree, on a host that refuses nothing, succeeds and hands the visitor
    the direct entries of the directory only, in name order, each named by
    its bare name with the size lstat reports for it. *)
Theorem X13_Walk_flat_lists_entries (l : LocalConfig) (remotePath : string) (w : World)
  (ents : list (string * Node)) :
  (forall o c, w_fault w o c = None) ->
  os_find w (Join [Path l; remotePath]) = inr (NDir ents) ->
  wf_node (NDir ents) = true ->
  Walk l remotePath false collect w
  = (log_app w (map (fun e => (fi_size (info_of (snd e)), fst e)) (sort_names ents)), Ok tt).
Proof.
  intros Hf Hp Hwf.
  assert (Hpne : Join [Path l; remotePath] <> "") by exact (os_find_nonempty _ _ _ Hp).
  pose proof (os_ReadDir_found w _ ents [] Hf Hp) as HR. rewrite log_app_nil in HR.
  assert (HL : forall e, In e (sort_names ents) ->
                 os_find w (Join [Join [Path l; remotePath]; fst e]) = inr (snd e)).
  { intros [x c] Hin. apply in_sort_names in Hin.
    destruct (wf_dir_inv ents Hwf) as [Hnd Hall]. destruct (Hall x c Hin) as [Vx _].
    exact (os_find_child w _ _ x [] ents c (below_self _ Hpne) Hp Hnd Hin Vx). }
  pose proof (walk_entries_collect _ w _ Hf HL []) as HW.
  rewrite log_app_nil in HW. cbn [app] in HW.
  unfold Walk, WalkAbsolute. cbv beta zeta iota. rewrite HR. exact HW.
Qed.

Lemma X13_witness :
  Walk demo_cfg "b1" false collect demo_world
  = (log_app demo_world [(2%Z, "meta.json"); (4096%Z, "sub")], Ok tt).
Proof.
  apply (X13_Walk_flat_lists_entries demo_cfg "b1" demo_world
           [("meta.json", NFile [Byte.x61; Byte.x62]); ("sub", NDir [("part", NFile [Byte.x63])])]).
  - intros o c. reflexivity.
  - vm_compute. reflexivity.
  - vm_compute. reflexivity.
Defined.

(** X14: GetFileReader of a key that does not exist fails with the open
    error itself (an *os.PathError "open" carrying ENOENT), not with the
    storage NotFound error that StatFile returns. *)
Theorem X14_GetFileReader_missing (l : LocalConfig) (key p : string) (w : World) (e : Errno) :
  containedPath (Path l) key = Ok p -> fault w OpOpen p = None -> os_find w p = inl e ->
  GetFileReader l key w = (w, Err (ErrPath "open" p e)).
Proof.
  intros Hc H1 H2. rewrite (GetFileReader_path l key p w Hc).
  unfold os_Open. rewrite H1, H2. reflexivity.
Qed.

Lemma X14_witness :
  GetFileReader demo_cfg "b1/none" demo_world
  = (demo_world, Err (ErrPath "open" "/data/remote/b1/none" ENOENT)).
Proof.
  apply (X14_GetFileReader_missing demo_cfg "b1/none" "/data/remote/b1/none" demo_world ENOENT);
    vm_compute; reflexivity.
Defined.

(** X15: GetFileReader of a key that names a directory succeeds (the open
    is not refused), and the first read from the handle fails with EISDIR,
    having delivered no byte. *)
Theorem X15_GetFileReader_directory (l : LocalConfig) (key p : string) (w : World)
  (ents : list (string * Node)) :
  containedPath (Path l) key = Ok p -> fault w OpOpen p = None -> fault w OpRead p = None ->
  os_find w p = inr (NDir ents) ->
  GetFileReader l key w = (w, Ok (mkHandle p))
  /\ read_all w (RFile (mkHandle p)) = ([], Some (ErrPath "read" p EISDIR)).
Proof.
  intros Hc H1 H2 H3. rewrite (GetFileReader_path l key p w Hc). split.
  - unfold os_Open. rewrite H1, H3. reflexivity.
  - cbn [read_all h_path]. rewrite H2, H3. reflexivity.
Qed.

Lemma X15_witness :
  GetFileReader demo_cfg "b1/sub" demo_world = (demo_world, Ok (mkHandle "/data/remote/b1/sub"))
  /\ read_all demo_world (RFile (mkHandle "/data/remote/b1/sub"))
     = ([], Some (ErrPath "read" "/data/remote/b1/sub" EISDIR)).
Proof.
  apply (X15_GetFileReader_directory demo_cfg "b1/sub" "/data/remote/b1/sub" demo_world
           [("part", NFile [Byte.x63])]); vm_compute; reflexivity.
Defined.

(** X16: when Connect succeeds (the root of the tree being a directory),
    the path is not empty and is a directory afterwards, and so is the
    object disk path when it is set. *)
Theorem X16_Connect_ok_dirs (l : LocalConfig) (w w' : World) :
  (exists e, w_root w = NDir e) -> Connect l w = (w', Ok tt) ->
  Path l <> "" /\ (exists e, os_find w' (Path l) = inr (NDir e))
  /\ (ObjectDiskPath l <> "" -> exists e, os_find w' (ObjectDiskPath l) = inr (NDir e)).
Proof. exact (Connect_dirs l w w'). Qed.

Lemma X16_witness :
  Path demo_cfg <> ""
  /\ (exists e, os_find (fst (Connect demo_cfg demo_world)) (Path demo_cfg) = inr (NDir e))
  /\ (ObjectDiskPath demo_cfg <> "" ->
      exists e, os_find (fst (Connect demo_cfg demo_world)) (ObjectDiskPath demo_cfg)
                = inr (NDir e)).
Proof.
  apply (X16_Connect_ok_dirs demo_cfg demo_world).
  - eexists. reflexivity.
  - vm_compute. reflexivity.
Defined.

(** X17: Connect is idempotent: once it has succeeded, connecting again
    succeeds and changes nothing. *)
Theorem X17_Connect_idempotent (l : LocalConfig) (w w' : World) :
  (exists e, w_root w = NDir e) -> Connect l w = (w', Ok tt) -> Connect l w' = (w', Ok tt).
Proof.
  intros Hr H. destruct (Connect_dirs l w w' Hr H) as (Hp & [e1 He1] & Ho).
  unfold Connect, bind, wrap_err, ret. cbv beta.
  destruct (Path l =? "") eqn:E; [apply String.eqb_eq in E; contradiction|].
  rewrite (MkdirAll_existing _ w' e1 He1).
  destruct (ObjectDiskPath l =? "") eqn:Eo; cbn [negb]; [reflexivity|].
  apply String.eqb_neq in Eo. destruct (Ho Eo) as [e2 He2].
  rewrite (MkdirAll_existing _ w' e2 He2). reflexivity.
Qed.

Lemma X17_witness :
  Connect demo_cfg (fst (Connect demo_cfg demo_world))
  = (fst (Connect demo_cfg demo_world), Ok tt).
Proof.
  apply (X17_Connect_idempotent demo_cfg demo_world).
  - eexists. reflexivity.
  - vm_compute. reflexivity.
Defined.

(** X18: CopyObject whose destination resolves to its own source (object
    disk path and source path giving the same joined path) does not keep
    the file: the hard link fails with EEXIST, the fallback creates the
    destination, truncating the source, and copies nothing; it reports
    success with 0 bytes and the file is left empty. *)
Theorem X18_CopyObject_onto_source (l : LocalConfig) (srcSize : Z)
  (srcBucket srcKey dstKey : string) (w : World) (d : list byte) :
  (forall o c, w_fault w o c = None) -> (exists ents, w_root w = NDir ents) ->
  is_rooted (ObjectDiskPath l) = true ->
  Join [ObjectDiskPath l; dstKey] = Join [Path l; srcKey] ->
  os_find w (Join [Path l; srcKey]) = inr (NFile d) ->
  exists w', CopyObject l srcSize srcBucket srcKey dstKey w = (w', Ok 0%Z)
             /\ os_find w' (Join [Path l; srcKey]) = inr (NFile []).
Proof. exact (copy_same_file l srcSize srcBucket srcKey dstKey w d). Qed.

Lemma X18_witness :
  exists w', CopyObject (mkConfig "/data/remote" "/data/remote" false) 2 "bucket"
               "b1/meta.json" "b1/meta.json" demo_world = (w', Ok 0%Z)
             /\ os_find w' "/data/remote/b1/meta.json" = inr (NFile []).
Proof.
  apply (X18_CopyObject_onto_source (mkConfig "/data/remote" "/data/remote" false) 2 "bucket"
           "b1/meta.json" "b1/meta.json" demo_world [Byte.x61; Byte.x62]).
  - intros o c. reflexivity.
  - eexists. reflexivity.
  - reflexivity.
  - reflexivity.
  - vm_compute. reflexivity.
Defined.
